(** * Tessendorf ocean waves (Tess_Waves.py): a shallow embedding

    The two numeric functions of [Tess_Waves.py], [phillips_spectrum] and
    [tessendorf_displacement], embedded over the real numbers.

    Conventions of the embedding.
    - A Python [float] is a real number ([R]): rounding, overflow and
      underflow are not modelled.  [math.exp], [math.cos], [math.sin] and
      [math.pi] are [exp], [cos], [sin] and [PI].
    - A Python [int] is an integer ([Z]); [a // 2] is [Z.div] (floor),
      and [int * float] converts with [IZR].
    - The two exceptions the arithmetic can raise are results of the
      embedding: [/] by zero raises [ZeroDivisionError], [math.sqrt] of a
      negative number raises [ValueError].  The one division by a literal,
      [L / 1000.0], is written without the test.
    - The module [random] is a piece of global state: [random.seed] and
      [random.gauss] are functions on an abstract generator state, and
      [tessendorf_displacement] threads that state. *)

From Stdlib Require Import Reals Lra Lia ZArith List Bool.
Import ListNotations.

Open Scope R_scope.

(** ** Exceptions and results *)

Inductive exn : Type :=
| ZeroDivisionError
| ValueError.

Inductive result (A : Type) : Type :=
| Ok (a : A)
| Raise (e : exn).

Arguments Ok {A} a.
Arguments Raise {A} e.

Definition rbind {A B : Type} (c : result A) (k : A -> result B) : result B :=
  match c with
  | Ok a => k a
  | Raise e => Raise e
  end.

Declare Scope result_scope.
Delimit Scope result_scope with result.
Notation "'try' x <- c ; k" := (rbind c (fun x => k))
  (at level 10, x name, c at level 100, k at level 200) : result_scope.

(** ** Python's float operations that can raise *)

(** [x / y] on floats. *)
Definition float_div (x y : R) : result R :=
  if Req_dec_T y 0 then Raise ZeroDivisionError else Ok (x / y).

(** [math.sqrt(x)]. *)
Definition math_sqrt (x : R) : result R :=
  if Rlt_dec x 0 then Raise ValueError else Ok (sqrt x).

(** The default value of the keyword argument [gravity]. *)
Definition gravity_default : R := 9.81.

(** ** [phillips_spectrum] (Tess_Waves.py, lines 6-56) *)

Definition phillips_spectrum
    (kx kz wind_speed wind_dir_x wind_dir_z gravity : R) : result R :=
  (try k_length <- math_sqrt (kx * kx + kz * kz);
   if Rlt_dec k_length 0.0001 then Ok 0
   else
     try L <- float_div (wind_speed * wind_speed) gravity;
     try wind_length <-
       math_sqrt (wind_dir_x * wind_dir_x + wind_dir_z * wind_dir_z);
     let '(wind_dir_x, wind_dir_z, wind_length) :=
       if Rlt_dec wind_length 0.0001
       then (1, 0, 1)
       else (wind_dir_x, wind_dir_z, wind_length) in
     try wx <- float_div wind_dir_x wind_length;
     try wz <- float_div wind_dir_z wind_length;
     try k_dot_w <- float_div (kx * wx + kz * wz) k_length;
     let A := 0.0081 in
     let k_dot_w := if Rlt_dec k_dot_w 0 then 0 else k_dot_w in
     let k_length_2 := k_length * k_length in
     let k_length_4 := k_length_2 * k_length_2 in
     let kL := k_length * L in
     try q <- float_div (-1) (kL * kL);
     let exp_term := exp q in
     let l_small := L / 1000 in
     let exp_term := exp_term * exp (- k_length_2 * l_small * l_small) in
     try r <- float_div (A * exp_term) k_length_4;
     let phillips := r * (k_dot_w * k_dot_w) in
     Ok phillips)%result.

(** [phillips_spectrum] with lines 36-38 (the clamp of [k_dot_w]) removed:
    the variant the specification compares it with. *)
Definition phillips_spectrum_unclamped
    (kx kz wind_speed wind_dir_x wind_dir_z gravity : R) : result R :=
  (try k_length <- math_sqrt (kx * kx + kz * kz);
   if Rlt_dec k_length 0.0001 then Ok 0
   else
     try L <- float_div (wind_speed * wind_speed) gravity;
     try wind_length <-
       math_sqrt (wind_dir_x * wind_dir_x + wind_dir_z * wind_dir_z);
     let '(wind_dir_x, wind_dir_z, wind_length) :=
       if Rlt_dec wind_length 0.0001
       then (1, 0, 1)
       else (wind_dir_x, wind_dir_z, wind_length) in
     try wx <- float_div wind_dir_x wind_length;
     try wz <- float_div wind_dir_z wind_length;
     try k_dot_w <- float_div (kx * wx + kz * wz) k_length;
     let A := 0.0081 in
     let k_length_2 := k_length * k_length in
     let k_length_4 := k_length_2 * k_length_2 in
     let kL := k_length * L in
     try q <- float_div (-1) (kL * kL);
     let exp_term := exp q in
     let l_small := L / 1000 in
     let exp_term := exp_term * exp (- k_length_2 * l_small * l_small) in
     try r <- float_div (A * exp_term) k_length_4;
     let phillips := r * (k_dot_w * k_dot_w) in
     Ok phillips)%result.

(** ** The Phillips formula, as the specification words it *)

(** The length of a 2D vector. *)
Definition norm2 (a b : R) : R := sqrt (a * a + b * b).

(** The unit wind vector: a wind direction of near-zero magnitude is
    replaced by [(1, 0)], any other one is normalized. *)
Definition wind_unit (wind_dir_x wind_dir_z : R) : R * R :=
  if Rlt_dec (norm2 wind_dir_x wind_dir_z) 0.0001 then (1, 0)
  else (wind_dir_x / norm2 wind_dir_x wind_dir_z,
        wind_dir_z / norm2 wind_dir_x wind_dir_z).

(** The dot product of the unit wave vector with the unit wind vector. *)
Definition alignment (kx kz wind_dir_x wind_dir_z : R) : R :=
  kx / norm2 kx kz * fst (wind_unit wind_dir_x wind_dir_z)
  + kz / norm2 kx kz * snd (wind_unit wind_dir_x wind_dir_z).

(** The same, clamped below at 0. *)
Definition cos_theta (kx kz wind_dir_x wind_dir_z : R) : R :=
  Rmax 0 (alignment kx kz wind_dir_x wind_dir_z).

(** [A * exp(-1/(|k| L)^2) * exp(-|k|^2 (L/1000)^2) / |k|^4 * c^2] with
    [A = 0.0081] and [L = wind_speed^2 / 9.81]. *)
Definition phillips_energy (k wind_speed c : R) : R :=
  let L := wind_speed ^ 2 / 9.81 in
  0.0081 * exp (- 1 / (k * L) ^ 2) * exp (- k ^ 2 * (L / 1000) ^ 2)
  / k ^ 4 * c ^ 2.

Definition phillips_formula (kx kz wind_speed wind_dir_x wind_dir_z : R) : R :=
  phillips_energy (norm2 kx kz) wind_speed
    (cos_theta kx kz wind_dir_x wind_dir_z).

(** ** Python's [range] and [for] *)

(** [range(a, b)]: the integers from [a] up to, not including, [b]. *)
Definition range (a b : Z) : list Z :=
  map (fun i => (a + Z.of_nat i)%Z) (seq 0 (Z.to_nat (b - a))).

(** ** The wave-vector lattice and the terms of the double sum *)

(** The index pairs the two loops reach past the first [continue]
    (lines 75-78), in the order of the sweep. *)
Definition lattice (resolution : Z) : list (Z * Z) :=
  flat_map
    (fun nx =>
       flat_map
         (fun nz =>
            if ((nx =? 0)%Z && (nz =? 0)%Z)%bool then [] else [(nx, nz)])
         (range (- resolution / 2) (resolution / 2)))
    (range (- resolution / 2) (resolution / 2)).

(** The test of the second [continue] (line 85), negated. *)
Definition past_guard (dk : R) (n : Z * Z) : bool :=
  if Rlt_dec (norm2 (IZR (fst n) * dk) (IZR (snd n) * dk)) 0.0001
  then false else true.

(** The contribution of one wave vector [(nx, nz)] with Gaussian draws
    [g1], [g2] to the height, as the specification words it. *)
Definition wave_term
    (x z time dk wind_speed wind_dir_x wind_dir_z wave_amplitude : R)
    (w : Z * Z * R * R) : R :=
  let '(nx, nz, g1, g2) := w in
  let kx := IZR nx * dk in
  let kz := IZR nz * dk in
  let P := phillips_formula kx kz wind_speed wind_dir_x wind_dir_z in
  let h0_real := g1 * sqrt (P / 2) in
  let h0_imag := g2 * sqrt (P / 2) in
  let omega := sqrt (9.81 * norm2 kx kz) in
  let ht_real := h0_real * cos (omega * time) - h0_imag * sin (omega * time) in
  let ht_imag := h0_real * sin (omega * time) + h0_imag * cos (omega * time) in
  let phi := kx * x + kz * z in
  wave_amplitude * (ht_real * cos phi - ht_imag * sin phi).

(** Its contribution to the horizontal displacement along one axis
    (lines 118-120); [axis] picks [nx] or [nz]. *)
Definition chop_term
    (x z time dk wind_speed wind_dir_x wind_dir_z wave_amplitude
       choppiness : R)
    (axis : Z * Z -> Z) (w : Z * Z * R * R) : R :=
  let '(nx, nz, _, _) := w in
  let k_length := norm2 (IZR nx * dk) (IZR nz * dk) in
  if Rgt_dec k_length 0.0001 then
    - choppiness * (IZR (axis (nx, nz)) * dk / k_length)
    * wave_term x z time dk wind_speed wind_dir_x wind_dir_z wave_amplitude w
  else 0.

Definition Rsum (l : list R) : R := fold_right Rplus 0 l.

Section Ocean.

(** The module [random]: its generator state, the state [random.seed(a)]
    leaves behind, and [random.gauss(0, 1)], which returns a sample and
    the next state. *)
Variable rng : Type.
Variable random_seed : Z -> rng.
Variable random_gauss : rng -> R * rng.

(** Computations that read and write the generator and may raise.  The
    generator is global: it keeps its state when an exception is raised. *)
Definition M (A : Type) : Type := rng -> result A * rng.

Definition ret {A : Type} (a : A) : M A := fun g => (Ok a, g).

Definition bind {A B : Type} (c : M A) (k : A -> M B) : M B :=
  fun g =>
    match c g with
    | (Ok a, g') => k a g'
    | (Raise e, g') => (Raise e, g')
    end.

Definition lift {A : Type} (r : result A) : M A := fun g => (r, g).

(** [random.seed(a)] *)
Definition seed_random (a : Z) : M unit := fun _ => (Ok tt, random_seed a).

(** [random.gauss(0, 1)] *)
Definition gauss : M R :=
  fun g => let (v, g') := random_gauss g in (Ok v, g').

Notation "'do' x <- c ; k" := (bind c (fun x => k))
  (at level 10, x name, c at level 100, k at level 200).

(** [for a in l: s = body(a, s)] *)
Fixpoint for_each {A S : Type} (l : list A) (body : A -> S -> M S) (s : S)
  : M S :=
  match l with
  | [] => ret s
  | a :: l' => do s' <- body a s; for_each l' body s'
  end.

(** The inner loop's body past its first [continue] (lines 80-120): one
    wave vector.  The accumulators are
    [(height, displacement_x, displacement_z)]; [continue] returns them
    unchanged. *)
Definition wave_vector_body
    (x z time dk wind_speed wind_dir_x wind_dir_z wave_amplitude
       choppiness : R)
    (nx nz : Z) (acc : R * R * R) : M (R * R * R) :=
  let '(height, displacement_x, displacement_z) := acc in
    let kx := IZR nx * dk in
    let kz := IZR nz * dk in
    do k_length <- lift (math_sqrt (kx * kx + kz * kz));
    if Rlt_dec k_length 0.0001 then ret acc
    else
      do P_k <- lift (phillips_spectrum kx kz wind_speed wind_dir_x
                        wind_dir_z gravity_default);
      do g1 <- gauss;
      do s1 <- lift (math_sqrt (P_k * 0.5));
      let h0_real := g1 * s1 in
      do g2 <- gauss;
      do s2 <- lift (math_sqrt (P_k * 0.5));
      let h0_imag := g2 * s2 in
      do omega <- lift (math_sqrt (9.81 * k_length));
      let phase := omega * time in
      let cos_phase := cos phase in
      let sin_phase := sin phase in
      let ht_real := h0_real * cos_phase - h0_imag * sin_phase in
      let ht_imag := h0_real * sin_phase + h0_imag * cos_phase in
      let spatial_phase := kx * x + kz * z in
      let cos_spatial := cos spatial_phase in
      let sin_spatial := sin spatial_phase in
      let wave_contribution :=
        (ht_real * cos_spatial - ht_imag * sin_spatial) * wave_amplitude in
      let height := height + wave_contribution in
      if Rgt_dec k_length 0.0001 then
        do qx <- lift (float_div kx k_length);
        let displacement_x :=
          displacement_x + - choppiness * qx * wave_contribution in
        do qz <- lift (float_div kz k_length);
        let displacement_z :=
          displacement_z + - choppiness * qz * wave_contribution in
        ret (height, displacement_x, displacement_z)
      else ret (height, displacement_x, displacement_z).

(** The whole body of the inner loop (lines 77-120). *)
Definition wave_vector_step
    (x z time dk wind_speed wind_dir_x wind_dir_z wave_amplitude
       choppiness : R)
    (nx nz : Z) (acc : R * R * R) : M (R * R * R) :=
  if ((nx =? 0)%Z && (nz =? 0)%Z)%bool then ret acc
  else
    wave_vector_body x z time dk wind_speed wind_dir_x wind_dir_z
      wave_amplitude choppiness nx nz acc.

(** [tessendorf_displacement] (lines 58-122). *)
Definition tessendorf_displacement
    (x z time : R) (resolution : Z)
    (patch_size wind_speed wind_dir_x wind_dir_z wave_amplitude
       choppiness : R)
    (seed : Z) : M (R * R * R) :=
  let height := 0 in
  let displacement_x := 0 in
  let displacement_z := 0 in
  do dk <- lift (float_div (2 * PI) patch_size);
  do _u <- seed_random seed;
  for_each (range (- resolution / 2) (resolution / 2))
    (fun nx acc =>
       for_each (range (- resolution / 2) (resolution / 2))
         (fun nz acc =>
            wave_vector_step x z time dk wind_speed wind_dir_x wind_dir_z
              wave_amplitude choppiness nx nz acc)
         acc)
    (height, displacement_x, displacement_z).

(** Two Gaussian draws for each wave vector of a list, in its order. *)
Fixpoint draw_amplitudes (ns : list (Z * Z)) (g : rng)
  : list (Z * Z * R * R) * rng :=
  match ns with
  | [] => ([], g)
  | (nx, nz) :: ns' =>
      let (g1, s1) := random_gauss g in
      let (g2, s2) := random_gauss s1 in
      let (ws, s') := draw_amplitudes ns' s2 in
      ((nx, nz, g1, g2) :: ws, s')
  end.

(** The direct double sum over the lattice, with the draws taken from
    the freshly seeded generator in sweep order, and the generator it
    leaves behind. *)
Definition double_sum
    (x z time : R) (resolution : Z)
    (patch_size wind_speed wind_dir_x wind_dir_z wave_amplitude
       choppiness : R)
    (seed : Z) : R * R * R * rng :=
  let dk := 2 * PI / patch_size in
  let (waves, g') :=
    draw_amplitudes (filter (past_guard dk) (lattice resolution))
      (random_seed seed) in
  (Rsum (map (wave_term x z time dk wind_speed wind_dir_x wind_dir_z
                wave_amplitude) waves),
   Rsum (map (chop_term x z time dk wind_speed wind_dir_x wind_dir_z
                wave_amplitude choppiness fst) waves),
   Rsum (map (chop_term x z time dk wind_speed wind_dir_x wind_dir_z
                wave_amplitude choppiness snd) waves),
   g').

End Ocean.


Arguments ret {rng A} a _.
Arguments bind {rng A B} c k _.
Arguments lift {rng A} r _.
Arguments for_each {rng A S} l body s _.
Arguments seed_random {rng} random_seed a _.
Arguments gauss {rng} random_gauss _.
Arguments wave_vector_body {rng} random_gauss x z time dk wind_speed
  wind_dir_x wind_dir_z wave_amplitude choppiness nx nz acc _.
Arguments wave_vector_step {rng} random_gauss x z time dk wind_speed
  wind_dir_x wind_dir_z wave_amplitude choppiness nx nz acc _.
Arguments tessendorf_displacement {rng} random_seed random_gauss x z time
  resolution patch_size wind_speed wind_dir_x wind_dir_z wave_amplitude
  choppiness seed _.
Arguments draw_amplitudes {rng} random_gauss ns g.
Arguments double_sum {rng} random_seed random_gauss x z time resolution
  patch_size wind_speed wind_dir_x wind_dir_z wave_amplitude choppiness seed.

(** ** The vertex loop of [apply_tessendorf_to_mesh] (lines 166-201)

    The scene belongs to the host.  What the host answers is an argument
    here: [bbox], the six numbers of [cmds.exactWorldBoundingBox], and
    [original_positions], the cached vertex positions.  What the host is
    told is a result: the translations given to [cmds.xform], vertex after
    vertex, are the list [written], kept when an exception stops the
    loop. *)

Record bounding_box : Type := {
  bbox0 : R;
  bbox1 : R;
  bbox2 : R;
  bbox3 : R;
  bbox4 : R;
  bbox5 : R
}.

Section Mesh.

Context {rng : Type}.
Variable random_seed : Z -> rng.
Variable random_gauss : rng -> R * rng.

Notation "'do' x <- c ; k" := (bind c (fun x => k))
  (at level 10, x name, c at level 100, k at level 200).

(** The body of the loop up to the new position (lines 183-198). *)
Definition vertex_position
    (obj_width obj_depth center_x center_z : R)
    (resolution : Z)
    (patch_size wind_speed wind_dir_x wind_dir_z wave_amplitude choppiness
       time_value : R)
    (seed : Z) (orig : R * R * R) : M rng (R * R * R) :=
  let '(orig_x, orig_y, orig_z) := orig in
  do qx <- lift (float_div (orig_x - center_x) obj_width);
  let ocean_x := qx * patch_size in
  do qz <- lift (float_div (orig_z - center_z) obj_depth);
  let ocean_z := qz * patch_size in
  do t <- tessendorf_displacement random_seed random_gauss ocean_x ocean_z
            time_value resolution patch_size wind_speed wind_dir_x wind_dir_z
            wave_amplitude choppiness seed;
  let '(height, disp_x, disp_z) := t in
  let new_x := orig_x + disp_x in
  let new_y := orig_y + height in
  let new_z := orig_z + disp_z in
  ret (new_x, new_y, new_z).

(** [for i in range(num_verts)]: each new position is written to the
    scene before the next vertex is looked at. *)
Fixpoint write_vertices
    (position : R * R * R -> M rng (R * R * R))
    (original_positions written : list (R * R * R)) (g : rng)
  : result unit * list (R * R * R) * rng :=
  match original_positions with
  | [] => (Ok tt, written, g)
  | orig :: rest =>
      match position orig g with
      | (Ok new, g') => write_vertices position rest (written ++ [new]) g'
      | (Raise e, g') => (Raise e, written, g')
      end
  end.

(** Lines 166-201. *)
Definition displace_vertices
    (bbox : bounding_box) (original_positions : list (R * R * R))
    (resolution : Z)
    (patch_size wind_speed wind_dir_x wind_dir_z wave_amplitude choppiness
       time_value : R)
    (seed : Z) (g : rng) : result unit * list (R * R * R) * rng :=
  let obj_width := bbox3 bbox - bbox0 bbox in
  let obj_depth := bbox5 bbox - bbox2 bbox in
  let center_x := (bbox0 bbox + bbox3 bbox) / 2 in
  let center_z := (bbox2 bbox + bbox5 bbox) / 2 in
  write_vertices
    (vertex_position obj_width obj_depth center_x center_z resolution
       patch_size wind_speed wind_dir_x wind_dir_z wave_amplitude choppiness
       time_value seed)
    original_positions [] g.

End Mesh.

Arguments vertex_position {rng} random_seed random_gauss obj_width obj_depth
  center_x center_z resolution patch_size wind_speed wind_dir_x wind_dir_z
  wave_amplitude choppiness time_value seed orig _.
Arguments write_vertices {rng} position original_positions written g.
Arguments displace_vertices {rng} random_seed random_gauss bbox
  original_positions resolution patch_size wind_speed wind_dir_x wind_dir_z
  wave_amplitude choppiness time_value seed g.

(** The result of a call, its value changed by [f]. *)
Definition rmap {A B : Type} (f : A -> B) (r : result A) : result B :=
  match r with
  | Ok a => Ok (f a)
  | Raise e => Raise e
  end.

(** A triple with its two displacement components scaled by [c]. *)
Definition scale_displacement (c : R) (t : R * R * R) : R * R * R :=
  let '(height, displacement_x, displacement_z) := t in
  (height, c * displacement_x, c * displacement_z).

(** A triple with its three components scaled by [a]. *)
Definition scale_triple (a : R) (t : R * R * R) : R * R * R :=
  let '(height, displacement_x, displacement_z) := t in
  (a * height, a * displacement_x, a * displacement_z).

(** A bound of [|wave_term|] that depends neither on the point nor on the
    time: the rotations by [omega t] and by [phi] have modulus 1. *)
Definition wave_term_bound
    (dk wind_speed wind_dir_x wind_dir_z wave_amplitude : R)
    (w : Z * Z * R * R) : R :=
  let '(nx, nz, g1, g2) := w in
  Rabs wave_amplitude
  * (2 * (Rabs g1 + Rabs g2)
     * sqrt (phillips_formula (IZR nx * dk) (IZR nz * dk) wind_speed
               wind_dir_x wind_dir_z / 2)).

(** A generator for the examples: its state counts the draws since the
    seed, and the draw in state [n] is [seed + n]. *)
Definition counting_seed (a : Z) : Z * nat := (a, 0%nat).
Definition counting_gauss (g : Z * nat) : R * (Z * nat) :=
  (IZR (fst g) + INR (snd g), (fst g, S (snd g))).

(** ** Basic facts *)

(** Two outcomes [(Ok (h, dx, dz), g)] with the same generator state are
    equal when their three components are. *)
Ltac same_outcome :=
  apply f_equal2; [| reflexivity]; apply f_equal;
  apply f_equal2; [apply f_equal2 |].

Lemma sumsq_nonneg (a b : R) : 0 <= a * a + b * b.
Proof. nra. Qed.

Lemma math_sqrt_sumsq (a b : R) : math_sqrt (a * a + b * b) = Ok (norm2 a b).
Proof.
  unfold math_sqrt.
  destruct (Rlt_dec (a * a + b * b) 0) as [H | H].
  - pose proof (sumsq_nonneg a b). lra.
  - reflexivity.
Qed.

Lemma math_sqrt_nonneg (x : R) : 0 <= x -> math_sqrt x = Ok (sqrt x).
Proof.
  intros Hx. unfold math_sqrt.
  destruct (Rlt_dec x 0); [lra | reflexivity].
Qed.

Lemma float_div_nonzero (x y : R) : y <> 0 -> float_div x y = Ok (x / y).
Proof.
  intros Hy. unfold float_div.
  destruct (Req_dec_T y 0); [contradiction | reflexivity].
Qed.

Lemma float_div_zero (x : R) : float_div x 0 = Raise ZeroDivisionError.
Proof.
  unfold float_div. destruct (Req_dec_T 0 0); [reflexivity | congruence].
Qed.

(** Lines 37-38 take the maximum with 0. *)
Lemma clamp_Rmax (d : R) : (if Rlt_dec d 0 then 0 else d) = Rmax 0 d.
Proof.
  destruct (Rlt_dec d 0); unfold Rmax; destruct (Rle_dec 0 d); lra.
Qed.

(** What [phillips_spectrum] does after the normalisation of the wind, for
    a wave vector past the guard. *)
Lemma phillips_spectrum_past_guard
    (kx kz wind_speed wind_dir_x wind_dir_z : R) :
  wind_speed <> 0 ->
  ~ norm2 kx kz < 0.0001 ->
  phillips_spectrum kx kz wind_speed wind_dir_x wind_dir_z gravity_default
  = Ok (phillips_formula kx kz wind_speed wind_dir_x wind_dir_z).
Proof.
  intros Hw Hk.
  assert (Hkpos : 0 < norm2 kx kz) by lra.
  assert (HL : 0 < wind_speed * wind_speed / 9.81).
  { apply Rdiv_lt_0_compat; [nra | lra]. }
  unfold phillips_spectrum, gravity_default.
  rewrite math_sqrt_sumsq. cbn [rbind].
  destruct (Rlt_dec (norm2 kx kz) 0.0001) as [? | _]; [contradiction |].
  rewrite float_div_nonzero by lra. cbn [rbind].
  rewrite math_sqrt_sumsq. cbn [rbind].
  unfold phillips_formula, phillips_energy, cos_theta, alignment, wind_unit.
  set (k := norm2 kx kz) in *.
  set (L := wind_speed * wind_speed / 9.81) in *.
  replace (wind_speed ^ 2) with (wind_speed * wind_speed) by ring.
  fold L.
  assert (HkL : k * L * (k * L) <> 0).
  { assert (0 < k * L) by (apply Rmult_lt_0_compat; lra). nra. }
  assert (Hk4 : k * k * (k * k) <> 0).
  { assert (0 < k * k) by (apply Rmult_lt_0_compat; lra). nra. }
  destruct (Rlt_dec (norm2 wind_dir_x wind_dir_z) 0.0001) as [Hwl | Hwl].
  - repeat (rewrite float_div_nonzero by (assumption || lra); cbn [rbind]).
    cbn [fst snd]. f_equal.
    replace (-1 / (k * L * (k * L))) with (- 1 / (k * L) ^ 2)
      by (field; lra).
    replace (- (k * k) * (L / 1000) * (L / 1000))
      with (- k ^ 2 * (L / 1000) ^ 2) by ring.
    replace (kx / k * 1 + kz / k * 0) with ((kx * (1 / 1) + kz * (0 / 1)) / k)
      by (field; lra).
    rewrite clamp_Rmax. field. lra.
  - set (w := norm2 wind_dir_x wind_dir_z) in *.
    assert (Hwpos : 0 < w) by lra.
    repeat (rewrite float_div_nonzero by (assumption || lra); cbn [rbind]).
    cbn [fst snd]. f_equal.
    replace (-1 / (k * L * (k * L))) with (- 1 / (k * L) ^ 2)
      by (field; lra).
    replace (- (k * k) * (L / 1000) * (L / 1000))
      with (- k ^ 2 * (L / 1000) ^ 2) by ring.
    replace (kx / k * (wind_dir_x / w) + kz / k * (wind_dir_z / w))
      with ((kx * (wind_dir_x / w) + kz * (wind_dir_z / w)) / k)
      by (field; lra).
    rewrite clamp_Rmax. field. lra.
Qed.

Lemma phillips_spectrum_below_guard
    (kx kz wind_speed wind_dir_x wind_dir_z gravity : R) :
  norm2 kx kz < 0.0001 ->
  phillips_spectrum kx kz wind_speed wind_dir_x wind_dir_z gravity = Ok 0.
Proof.
  intros Hk. unfold phillips_spectrum.
  rewrite math_sqrt_sumsq. cbn [rbind].
  destruct (Rlt_dec (norm2 kx kz) 0.0001); [reflexivity | contradiction].
Qed.

Lemma norm2_scale (s a b : R) : 0 <= s -> norm2 (s * a) (s * b) = s * norm2 a b.
Proof.
  intros Hs. unfold norm2.
  replace (s * a * (s * a) + s * b * (s * b)) with (s * s * (a * a + b * b))
    by ring.
  rewrite sqrt_mult_alt by nra.
  rewrite sqrt_square by assumption. reflexivity.
Qed.

Lemma norm2_1_0 : norm2 1 0 = 1.
Proof.
  unfold norm2. replace (1 * 1 + 0 * 0) with (1 * 1) by ring.
  apply sqrt_square. lra.
Qed.

Lemma wind_unit_1_0 : wind_unit 1 0 = (1, 0).
Proof.
  unfold wind_unit. rewrite norm2_1_0.
  destruct (Rlt_dec 1 0.0001); [lra | f_equal; lra].
Qed.

Lemma wind_unit_near_zero (wind_dir_x wind_dir_z : R) :
  norm2 wind_dir_x wind_dir_z < 0.0001 ->
  wind_unit wind_dir_x wind_dir_z = (1, 0).
Proof.
  intros H. unfold wind_unit.
  destruct (Rlt_dec (norm2 wind_dir_x wind_dir_z) 0.0001);
    [reflexivity | contradiction].
Qed.

Lemma wind_unit_scale (s wind_dir_x wind_dir_z : R) :
  0 < s ->
  ~ norm2 wind_dir_x wind_dir_z < 0.0001 ->
  ~ norm2 (s * wind_dir_x) (s * wind_dir_z) < 0.0001 ->
  wind_unit (s * wind_dir_x) (s * wind_dir_z) = wind_unit wind_dir_x wind_dir_z.
Proof.
  intros Hs Hw Hsw. unfold wind_unit.
  destruct (Rlt_dec (norm2 (s * wind_dir_x) (s * wind_dir_z)) 0.0001);
    [contradiction |].
  destruct (Rlt_dec (norm2 wind_dir_x wind_dir_z) 0.0001); [contradiction |].
  rewrite norm2_scale by lra.
  f_equal; field; lra.
Qed.

(** The value of [phillips_spectrum] depends on the wind direction only
    through [wind_unit]. *)
Lemma phillips_formula_wind_unit (kx kz wind_speed a b c d : R) :
  wind_unit a b = wind_unit c d ->
  phillips_formula kx kz wind_speed a b = phillips_formula kx kz wind_speed c d.
Proof.
  intros H. unfold phillips_formula, cos_theta, alignment. rewrite H.
  reflexivity.
Qed.



(** ** The clamp of [k_dot_w] *)

(** Without the clamp the same formula is computed on the alignment
    itself. *)
Lemma phillips_spectrum_unclamped_past_guard
    (kx kz wind_speed wind_dir_x wind_dir_z : R) :
  wind_speed <> 0 ->
  ~ norm2 kx kz < 0.0001 ->
  phillips_spectrum_unclamped kx kz wind_speed wind_dir_x wind_dir_z
    gravity_default
  = Ok (phillips_energy (norm2 kx kz) wind_speed
          (alignment kx kz wind_dir_x wind_dir_z)).
Proof.
  intros Hw Hk.
  assert (Hkpos : 0 < norm2 kx kz) by lra.
  assert (HL : 0 < wind_speed * wind_speed / 9.81).
  { apply Rdiv_lt_0_compat; [nra | lra]. }
  unfold phillips_spectrum_unclamped, gravity_default.
  rewrite math_sqrt_sumsq. cbn [rbind].
  destruct (Rlt_dec (norm2 kx kz) 0.0001) as [? | _]; [contradiction |].
  rewrite float_div_nonzero by lra. cbn [rbind].
  rewrite math_sqrt_sumsq. cbn [rbind].
  unfold phillips_energy, alignment, wind_unit.
  set (k := norm2 kx kz) in *.
  set (L := wind_speed * wind_speed / 9.81) in *.
  replace (wind_speed ^ 2) with (wind_speed * wind_speed) by ring.
  fold L.
  assert (HkL : k * L * (k * L) <> 0).
  { assert (0 < k * L) by (apply Rmult_lt_0_compat; lra). nra. }
  assert (Hk4 : k * k * (k * k) <> 0).
  { assert (0 < k * k) by (apply Rmult_lt_0_compat; lra). nra. }
  set (w := norm2 wind_dir_x wind_dir_z) in *.
  destruct (Rlt_dec w 0.0001) as [Hwl | Hwl].
  - repeat (rewrite float_div_nonzero by (assumption || lra); cbn [rbind]).
    cbn [fst snd]. f_equal.
    replace (-1 / (k * L * (k * L))) with (- 1 / (k * L) ^ 2)
      by (field; lra).
    replace (- (k * k) * (L / 1000) * (L / 1000))
      with (- k ^ 2 * (L / 1000) ^ 2) by ring.
    field. lra.
  - assert (Hwpos : 0 < w) by lra.
    repeat (rewrite float_div_nonzero by (assumption || lra); cbn [rbind]).
    cbn [fst snd]. f_equal.
    replace (-1 / (k * L * (k * L))) with (- 1 / (k * L) ^ 2)
      by (field; lra).
    replace (- (k * k) * (L / 1000) * (L / 1000))
      with (- k ^ 2 * (L / 1000) ^ 2) by ring.
    field. lra.
Qed.

Lemma phillips_spectrum_unclamped_below_guard
    (kx kz wind_speed wind_dir_x wind_dir_z gravity : R) :
  norm2 kx kz < 0.0001 ->
  phillips_spectrum_unclamped kx kz wind_speed wind_dir_x wind_dir_z gravity
  = Ok 0.
Proof.
  intros Hk. unfold phillips_spectrum_unclamped.
  rewrite math_sqrt_sumsq. cbn [rbind].
  destruct (Rlt_dec (norm2 kx kz) 0.0001); [reflexivity | contradiction].
Qed.

(** The part of the energy that does not depend on the alignment is
    positive. *)
Lemma phillips_energy_pos (k wind_speed c : R) :
  0 < k -> c <> 0 -> 0 < phillips_energy k wind_speed c.
Proof.
  intros Hk Hc. unfold phillips_energy.
  set (L := wind_speed ^ 2 / 9.81).
  pose proof (exp_pos (- 1 / (k * L) ^ 2)) as E1.
  pose proof (exp_pos (- k ^ 2 * (L / 1000) ^ 2)) as E2.
  assert (Hk4 : 0 < k ^ 4) by (apply pow_lt; assumption).
  assert (Hc2 : 0 < c ^ 2) by (simpl; nra).
  apply Rmult_lt_0_compat; [| assumption].
  apply Rdiv_lt_0_compat; [| assumption].
  apply Rmult_lt_0_compat; [| assumption].
  apply Rmult_lt_0_compat; [lra | assumption].
Qed.

Lemma phillips_energy_zero (k wind_speed : R) : phillips_energy k wind_speed 0 = 0.
Proof. unfold phillips_energy. simpl. ring. Qed.

Lemma phillips_energy_nonneg (k wind_speed c : R) :
  0 < k -> 0 <= phillips_energy k wind_speed c.
Proof.
  intros Hk. destruct (Req_dec_T c 0) as [-> | Hc].
  - rewrite phillips_energy_zero. lra.
  - left. apply phillips_energy_pos; assumption.
Qed.

Lemma norm2_m1_0 : norm2 (-1) 0 = 1.
Proof.
  unfold norm2. replace (-1 * -1 + 0 * 0) with (1 * 1) by ring.
  apply sqrt_square. lra.
Qed.




(** ** Negating the wave vector and the wind *)

Lemma norm2_opp (a b : R) : norm2 (- a) (- b) = norm2 a b.
Proof. unfold norm2. f_equal. ring. Qed.

Lemma norm2_0_0 : norm2 0 0 = 0.
Proof.
  unfold norm2. replace (0 * 0 + 0 * 0) with 0 by ring. apply sqrt_0.
Qed.




(** ** Suppression of the waves shorter than the wind-limited scale *)

Lemma exp_le (x y : R) : x <= y -> exp x <= exp y.
Proof.
  intros [H | ->]; [left; apply exp_increasing; assumption | right; reflexivity].
Qed.

Lemma poly_ineq (x y : R) : 1 <= x -> x < y ->
  0 <= y ^ 4 * x ^ 2 + y ^ 2 * x ^ 2 - y ^ 4 - x ^ 6.
Proof.
  intros Hx Hy.
  assert (Hx2 : 1 <= x ^ 2) by (simpl; nra).
  assert (Hxy : x ^ 2 <= y ^ 2) by (simpl; nra).
  set (u := x ^ 2) in *. set (v := y ^ 2) in *.
  replace (y ^ 4) with (v * v) by (unfold v; ring).
  replace (x ^ 6) with (u * u * u) by (unfold u; ring).
  (* v^2 u + v u - v^2 - u^3 = v^2 (u-1) + u (v - u^2) ... *)
  assert (H1 : u * u * (u - 1) <= v * v * (u - 1)).
  { apply Rmult_le_compat_r; [lra | nra]. }
  nra.
Qed.

Lemma large_wave_factor_decreasing (x y : R) :
  1 <= x -> x < y ->
  exp (- 1 / y ^ 2) / y ^ 4 <= exp (- 1 / x ^ 2) / x ^ 4.
Proof.
  intros Hx Hy.
  assert (Hx0 : 0 < x) by lra. assert (Hy0 : 0 < y) by lra.
  assert (Hx4 : 0 < x ^ 4) by (apply pow_lt; assumption).
  assert (Hy4 : 0 < y ^ 4) by (apply pow_lt; assumption).
  assert (Hx2 : 0 < x ^ 2) by (apply pow_lt; assumption).
  assert (Hy2 : 0 < y ^ 2) by (apply pow_lt; assumption).
  set (d := 1 / y ^ 2 - 1 / x ^ 2).
  assert (Hexp : exp (- 1 / x ^ 2) = exp (- 1 / y ^ 2) * exp d).
  { rewrite <- exp_plus. f_equal. unfold d. field. split; lra. }
  rewrite Hexp.
  pose proof (exp_ineq1_le d) as Hd.
  pose proof (exp_pos (- 1 / y ^ 2)) as Hp.
  change (exp (- 1 / y ^ 2) * / y ^ 4 <= exp (- 1 / y ^ 2) * exp d * / x ^ 4).
  rewrite Rmult_assoc.
  apply Rmult_le_compat_l; [lra |].
  apply Rle_trans with ((1 + d) * / x ^ 4).
  - cut (0 <= (1 + d) * / x ^ 4 - / y ^ 4); [lra |].
    replace ((1 + d) * / x ^ 4 - / y ^ 4)
      with ((y ^ 4 * x ^ 2 + y ^ 2 * x ^ 2 - y ^ 4 - x ^ 6)
            / (x ^ 6 * y ^ 4))
      by (unfold d; field; split; lra).
    apply Rmult_le_pos; [apply poly_ineq; assumption |].
    left. apply Rinv_0_lt_compat. apply Rmult_lt_0_compat; [apply pow_lt |]; assumption.
  - apply Rmult_le_compat_r; [| assumption].
    left. apply Rinv_0_lt_compat. assumption.
Qed.

(** Past the wind-limited scale [1/L] the energy decreases with [|k|], the
    alignment being fixed. *)
Lemma phillips_energy_decreasing (wind_speed c k1 k2 : R) :
  0 < wind_speed ->
  1 / (wind_speed ^ 2 / 9.81) <= k1 ->
  k1 < k2 ->
  phillips_energy k2 wind_speed c <= phillips_energy k1 wind_speed c.
Proof.
  intros Hw H1 H12. unfold phillips_energy.
  set (L := wind_speed ^ 2 / 9.81) in *.
  assert (HL : 0 < L).
  { unfold L. apply Rdiv_lt_0_compat; [apply pow_lt; assumption | lra]. }
  assert (Hk1 : 0 < k1).
  { apply Rlt_le_trans with (1 / L); [| assumption].
    apply Rdiv_lt_0_compat; lra. }
  assert (Hk2 : 0 < k2) by lra.
  assert (Hx : 1 <= k1 * L).
  { replace 1 with (1 / L * L) by (field; lra).
    apply Rmult_le_compat_r; lra. }
  assert (Hxy : k1 * L < k2 * L) by (apply Rmult_lt_compat_r; lra).
  pose proof (large_wave_factor_decreasing _ _ Hx Hxy) as HF.
  assert (HG : exp (- k2 ^ 2 * (L / 1000) ^ 2)
               <= exp (- k1 ^ 2 * (L / 1000) ^ 2)).
  { apply exp_le.
    assert (0 <= (L / 1000) ^ 2) by apply pow2_ge_0.
    assert (k1 ^ 2 <= k2 ^ 2) by (simpl; nra).
    nra. }
  assert (HF0 : 0 < exp (- 1 / (k2 * L) ^ 2) / (k2 * L) ^ 4).
  { apply Rdiv_lt_0_compat; [apply exp_pos |].
    apply pow_lt. apply Rmult_lt_0_compat; assumption. }
  pose proof (exp_pos (- k1 ^ 2 * (L / 1000) ^ 2)) as HG0.
  pose proof (exp_pos (- k2 ^ 2 * (L / 1000) ^ 2)) as HG2.
  assert (Heq : forall k : R, 0 < k ->
            0.0081 * exp (- 1 / (k * L) ^ 2) * exp (- k ^ 2 * (L / 1000) ^ 2)
            / k ^ 4 * c ^ 2
            = 0.0081 * c ^ 2 * L ^ 4
              * (exp (- 1 / (k * L) ^ 2) / (k * L) ^ 4
                 * exp (- k ^ 2 * (L / 1000) ^ 2))).
  { intros k Hk. field. split; lra. }
  rewrite (Heq k1 Hk1), (Heq k2 Hk2).
  apply Rmult_le_compat_l.
  - assert (0 <= c ^ 2) by apply pow2_ge_0.
    assert (0 < L ^ 4) by (apply pow_lt; assumption).
    apply Rmult_le_pos; [| lra]. apply Rmult_le_pos; lra.
  - apply Rmult_le_compat; lra.
Qed.

Lemma norm2_unit_scale (k ux uz : R) :
  0 <= k -> ux * ux + uz * uz = 1 -> norm2 (k * ux) (k * uz) = k.
Proof.
  intros Hk Hu. rewrite norm2_scale by assumption.
  unfold norm2. rewrite Hu, sqrt_1. ring.
Qed.

(** Along a fixed direction the clamped alignment does not depend on the
    magnitude of the wave vector. *)
Lemma cos_theta_unit_scale (k ux uz wind_dir_x wind_dir_z : R) :
  0 < k -> ux * ux + uz * uz = 1 ->
  cos_theta (k * ux) (k * uz) wind_dir_x wind_dir_z
  = Rmax 0 (ux * fst (wind_unit wind_dir_x wind_dir_z)
            + uz * snd (wind_unit wind_dir_x wind_dir_z)).
Proof.
  intros Hk Hu. unfold cos_theta, alignment.
  rewrite norm2_unit_scale by (lra || assumption).
  f_equal. field. lra.
Qed.




(** ** The loops of [tessendorf_displacement] *)

Section Loops.

Context {rng : Type}.

Lemma bind_ret_r {A : Type} (c : M rng A) (g : rng) : bind c ret g = c g.
Proof.
  unfold bind, ret. destruct (c g) as [[a | e] g']; reflexivity.
Qed.

Lemma for_each_ext {A S : Type} (l : list A) (body1 body2 : A -> S -> M rng S) :
  (forall a s g, body1 a s g = body2 a s g) ->
  forall s g, for_each l body1 s g = for_each l body2 s g.
Proof.
  intros Hb. induction l as [| a l IH]; intros s g; cbn [for_each].
  - reflexivity.
  - unfold bind. rewrite Hb.
    destruct (body2 a s g) as [[s' | e] g']; [apply IH | reflexivity].
Qed.

Lemma for_each_app {A S : Type} (l1 l2 : list A) (body : A -> S -> M rng S) :
  forall s g,
    for_each (l1 ++ l2) body s g
    = bind (for_each l1 body s) (for_each l2 body) g.
Proof.
  induction l1 as [| a l1 IH]; intros s g; cbn [for_each app].
  - reflexivity.
  - unfold bind.
    destruct (body a s g) as [[s' | e] g']; [| reflexivity].
    rewrite IH. reflexivity.
Qed.

(** A loop nest is a loop over the concatenation of the inner ranges. *)
Lemma for_each_flat_map {A B S : Type} (f : A -> list B) (l : list A)
    (body : B -> S -> M rng S) :
  forall s g,
    for_each (flat_map f l) body s g
    = for_each l (fun a s' => for_each (f a) body s') s g.
Proof.
  induction l as [| a l IH]; intros s g; cbn [for_each flat_map].
  - reflexivity.
  - rewrite for_each_app. unfold bind.
    destruct (for_each (f a) body s g) as [[s' | e] g'];
      [apply IH | reflexivity].
Qed.

Variable random_seed : Z -> rng.
Variable random_gauss : rng -> R * rng.

(** The two loops with their first [continue] are one loop over
    [lattice]. *)
Lemma sweep_lattice
    (x z time dk wind_speed wind_dir_x wind_dir_z wave_amplitude
       choppiness : R)
    (resolution : Z) (acc : R * R * R) (g : rng) :
  for_each (range (- resolution / 2) (resolution / 2))
    (fun nx acc =>
       for_each (range (- resolution / 2) (resolution / 2))
         (fun nz acc =>
            wave_vector_step random_gauss x z time dk wind_speed wind_dir_x
              wind_dir_z wave_amplitude choppiness nx nz acc)
         acc)
    acc g
  = for_each (lattice resolution)
      (fun n acc =>
         wave_vector_body random_gauss x z time dk wind_speed wind_dir_x
           wind_dir_z wave_amplitude choppiness (fst n) (snd n) acc)
      acc g.
Proof.
  unfold lattice. rewrite for_each_flat_map.
  apply for_each_ext. intros nx s g0.
  rewrite for_each_flat_map.
  apply for_each_ext. intros nz s' g1.
  unfold wave_vector_step.
  destruct ((nx =? 0)%Z && (nz =? 0)%Z)%bool; cbn [for_each fst snd].
  - reflexivity.
  - rewrite bind_ret_r. reflexivity.
Qed.

End Loops.

(** ** One wave vector *)

Section Waves.

Context {rng : Type}.
Variable random_seed : Z -> rng.
Variable random_gauss : rng -> R * rng.

(** The second [continue]: a wave vector shorter than 1e-4 changes neither
    the accumulators nor the generator. *)
Lemma wave_vector_body_below_guard
    (x z time dk wind_speed wind_dir_x wind_dir_z wave_amplitude
       choppiness : R)
    (nx nz : Z) (acc : R * R * R) (g : rng) :
  norm2 (IZR nx * dk) (IZR nz * dk) < 0.0001 ->
  wave_vector_body random_gauss x z time dk wind_speed wind_dir_x wind_dir_z
    wave_amplitude choppiness nx nz acc g
  = (Ok acc, g).
Proof.
  intros Hk. destruct acc as [[h dx] dz].
  unfold wave_vector_body, bind, lift, ret.
  rewrite math_sqrt_sumsq.
  destruct (Rlt_dec (norm2 (IZR nx * dk) (IZR nz * dk)) 0.0001);
    [reflexivity | contradiction].
Qed.

(** Past it, two draws are consumed and the three accumulators receive
    the terms of the double sum. *)
Lemma wave_vector_body_past_guard
    (x z time dk wind_speed wind_dir_x wind_dir_z wave_amplitude
       choppiness : R)
    (nx nz : Z) (h dx dz : R) (g : rng) :
  wind_speed <> 0 ->
  ~ norm2 (IZR nx * dk) (IZR nz * dk) < 0.0001 ->
  wave_vector_body random_gauss x z time dk wind_speed wind_dir_x wind_dir_z
    wave_amplitude choppiness nx nz (h, dx, dz) g
  = let (g1, s1) := random_gauss g in
    let (g2, s2) := random_gauss s1 in
    (Ok (h + wave_term x z time dk wind_speed wind_dir_x wind_dir_z
               wave_amplitude (nx, nz, g1, g2),
         dx + chop_term x z time dk wind_speed wind_dir_x wind_dir_z
                wave_amplitude choppiness fst (nx, nz, g1, g2),
         dz + chop_term x z time dk wind_speed wind_dir_x wind_dir_z
                wave_amplitude choppiness snd (nx, nz, g1, g2)),
     s2).
Proof.
  intros Hw Hk.
  unfold wave_vector_body, bind, lift, ret, gauss.
  rewrite math_sqrt_sumsq.
  destruct (Rlt_dec (norm2 (IZR nx * dk) (IZR nz * dk)) 0.0001) as [? | _];
    [contradiction |].
  rewrite phillips_spectrum_past_guard by assumption.
  destruct (random_gauss g) as [g1 s1].
  destruct (random_gauss s1) as [g2 s2].
  set (kx := IZR nx * dk) in *. set (kz := IZR nz * dk) in *.
  set (k := norm2 kx kz) in *.
  set (P := phillips_formula kx kz wind_speed wind_dir_x wind_dir_z).
  assert (Hkpos : 0 < k) by lra.
  assert (HP : 0 <= P).
  { unfold P, phillips_formula. apply phillips_energy_nonneg. exact Hkpos. }
  rewrite (math_sqrt_nonneg (P * 0.5)) by lra.
  rewrite (math_sqrt_nonneg (9.81 * k)) by lra.
  unfold chop_term. unfold wave_term. cbn [fst snd].
  fold kx kz k P.
  replace (P * 0.5) with (P / 2) by lra.
  destruct (Rgt_dec k 0.0001) as [Hgt | Hgt].
  - rewrite !(float_div_nonzero _ k) by lra.
    same_outcome; ring.
  - same_outcome; ring.
Qed.

Lemma past_guard_false (dk : R) (nx nz : Z) :
  norm2 (IZR nx * dk) (IZR nz * dk) < 0.0001 -> past_guard dk (nx, nz) = false.
Proof.
  intros H. unfold past_guard. cbn [fst snd].
  destruct (Rlt_dec (norm2 (IZR nx * dk) (IZR nz * dk)) 0.0001);
    [reflexivity | contradiction].
Qed.

Lemma past_guard_true (dk : R) (nx nz : Z) :
  ~ norm2 (IZR nx * dk) (IZR nz * dk) < 0.0001 -> past_guard dk (nx, nz) = true.
Proof.
  intros H. unfold past_guard. cbn [fst snd].
  destruct (Rlt_dec (norm2 (IZR nx * dk) (IZR nz * dk)) 0.0001);
    [contradiction | reflexivity].
Qed.

(** The loop over a list of wave vectors adds, to each accumulator, the
    sum of the terms of the wave vectors past the guard, with the draws
    taken in the order of the list. *)
Lemma for_each_waves
    (x z time dk wind_speed wind_dir_x wind_dir_z wave_amplitude
       choppiness : R)
    (ns : list (Z * Z)) :
  wind_speed <> 0 ->
  forall (h dx dz : R) (g : rng),
    for_each ns
      (fun n acc =>
         wave_vector_body random_gauss x z time dk wind_speed wind_dir_x
           wind_dir_z wave_amplitude choppiness (fst n) (snd n) acc)
      (h, dx, dz) g
    = let (waves, g') :=
        draw_amplitudes random_gauss (filter (past_guard dk) ns) g in
      (Ok (h + Rsum (map (wave_term x z time dk wind_speed wind_dir_x
                            wind_dir_z wave_amplitude) waves),
           dx + Rsum (map (chop_term x z time dk wind_speed wind_dir_x
                             wind_dir_z wave_amplitude choppiness fst) waves),
           dz + Rsum (map (chop_term x z time dk wind_speed wind_dir_x
                             wind_dir_z wave_amplitude choppiness snd) waves)),
       g').
Proof.
  intros Hw. induction ns as [| [nx nz] ns IH]; intros h dx dz g.
  - cbn. unfold ret.
    same_outcome; ring.
  - cbn [for_each filter fst snd]. unfold bind.
    destruct (Rlt_dec (norm2 (IZR nx * dk) (IZR nz * dk)) 0.0001) as [Hk | Hk].
    + rewrite past_guard_false by assumption.
      rewrite wave_vector_body_below_guard by assumption. apply IH.
    + rewrite past_guard_true by assumption.
      rewrite wave_vector_body_past_guard by assumption.
      cbn [draw_amplitudes].
      destruct (random_gauss g) as [g1 s1].
      destruct (random_gauss s1) as [g2 s2].
      rewrite IH.
      destruct (draw_amplitudes random_gauss (filter (past_guard dk) ns) s2)
        as [waves g'].
      cbn [map Rsum fold_right].
      same_outcome; unfold Rsum; ring.
Qed.

(** The value of [tessendorf_displacement] whenever neither the patch
    size nor the wind speed is zero. *)
Lemma tessendorf_displacement_value
    (x z time : R) (resolution : Z)
    (patch_size wind_speed wind_dir_x wind_dir_z wave_amplitude
       choppiness : R)
    (seed : Z) (g : rng) :
  patch_size <> 0 ->
  wind_speed <> 0 ->
  tessendorf_displacement random_seed random_gauss x z time resolution
    patch_size wind_speed wind_dir_x wind_dir_z wave_amplitude choppiness
    seed g
  = (Ok (fst (double_sum random_seed random_gauss x z time resolution
                patch_size wind_speed wind_dir_x wind_dir_z wave_amplitude
                choppiness seed)),
     snd (double_sum random_seed random_gauss x z time resolution
            patch_size wind_speed wind_dir_x wind_dir_z wave_amplitude
            choppiness seed)).
Proof.
  intros Hp Hw.
  unfold tessendorf_displacement, double_sum.
  unfold bind at 1. unfold lift. rewrite float_div_nonzero by assumption.
  unfold bind at 1. unfold seed_random.
  rewrite sweep_lattice. rewrite for_each_waves by assumption.
  destruct (draw_amplitudes random_gauss
              (filter (past_guard (2 * PI / patch_size)) (lattice resolution))
              (random_seed seed)) as [waves g'].
  cbn [fst snd].
  same_outcome; ring.
Qed.

(** A zero patch size stops the call at [2 * pi / patch_size], before the
    generator is seeded. *)
Lemma tessendorf_displacement_patch_zero
    (x z time : R) (resolution : Z)
    (wind_speed wind_dir_x wind_dir_z wave_amplitude choppiness : R)
    (seed : Z) (g : rng) :
  tessendorf_displacement random_seed random_gauss x z time resolution 0
    wind_speed wind_dir_x wind_dir_z wave_amplitude choppiness seed g
  = (Raise ZeroDivisionError, g).
Proof.
  unfold tessendorf_displacement, bind, lift.
  rewrite float_div_zero. reflexivity.
Qed.

End Waves.

(** ** The lattice *)

Lemma in_range (a b i : Z) : In i (range a b) <-> (a <= i < b)%Z.
Proof.
  unfold range. rewrite in_map_iff. split.
  - intros [n [Hn Hin]]. apply in_seq in Hin. lia.
  - intros Hi. exists (Z.to_nat (i - a)). split; [lia |].
    apply in_seq. lia.
Qed.

Lemma NoDup_range (a b : Z) : NoDup (range a b).
Proof.
  unfold range.
  generalize (seq_NoDup (Z.to_nat (b - a)) 0).
  generalize (seq 0 (Z.to_nat (b - a))) as l.
  induction l as [| n l IH]; intros Hl; cbn [map].
  - constructor.
  - inversion Hl as [| ? ? Hn Hl']; subst. constructor.
    + rewrite in_map_iff. intros [m [Hm Hin]].
      assert (m = n) by lia. subst. contradiction.
    + apply IH; assumption.
Qed.

Lemma in_lattice (resolution nx nz : Z) :
  In (nx, nz) (lattice resolution)
  <-> (- resolution / 2 <= nx < resolution / 2)%Z
      /\ (- resolution / 2 <= nz < resolution / 2)%Z
      /\ ~ (nx = 0%Z /\ nz = 0%Z).
Proof.
  unfold lattice. rewrite in_flat_map. split.
  - intros [a [Ha Hin]]. apply in_flat_map in Hin.
    destruct Hin as [b [Hb Hin]].
    apply in_range in Ha. apply in_range in Hb.
    destruct ((a =? 0)%Z && (b =? 0)%Z)%bool eqn:E; [destruct Hin |].
    destruct Hin as [Hin | []]. injection Hin as -> ->.
    apply andb_false_iff in E. rewrite !Z.eqb_neq in E.
    repeat split; try tauto.
  - intros (Hx & Hz & Hne). exists nx. split; [apply in_range; assumption |].
    apply in_flat_map. exists nz. split; [apply in_range; assumption |].
    destruct ((nx =? 0)%Z && (nz =? 0)%Z)%bool eqn:E.
    + apply andb_true_iff in E. rewrite !Z.eqb_eq in E. contradiction.
    + left. reflexivity.
Qed.

Lemma NoDup_lattice (resolution : Z) : NoDup (lattice resolution).
Proof.
  unfold lattice.
  set (r := range (- resolution / 2) (resolution / 2)).
  assert (Hinner : forall nx,
            NoDup (flat_map
                     (fun nz =>
                        if ((nx =? 0)%Z && (nz =? 0)%Z)%bool
                        then [] else [(nx, nz)]) r)).
  { intros nx. generalize (NoDup_range (- resolution / 2) (resolution / 2)).
    fold r. generalize r as l.
    induction l as [| nz l IH]; intros Hl; cbn [flat_map].
    - constructor.
    - inversion Hl as [| ? ? Hn Hl']; subst.
      destruct ((nx =? 0)%Z && (nz =? 0)%Z)%bool; cbn [app];
        [apply IH; assumption |].
      constructor; [| apply IH; assumption].
      rewrite in_flat_map. intros [b [Hb Hin]].
      destruct ((nx =? 0)%Z && (b =? 0)%Z)%bool; [destruct Hin |].
      destruct Hin as [Hin | []]. injection Hin as ->. contradiction. }
  generalize (NoDup_range (- resolution / 2) (resolution / 2)).
  fold r. generalize r at 1 3 as l.
  induction l as [| nx l IH]; intros Hl; cbn [flat_map].
  - constructor.
  - inversion Hl as [| ? ? Hn Hl']; subst.
    apply NoDup_app; [apply Hinner | apply IH; assumption |].
    intros [a b] Ha Hb.
    apply in_flat_map in Ha. destruct Ha as [nz [_ Ha]].
    destruct ((nx =? 0)%Z && (nz =? 0)%Z)%bool; [destruct Ha |].
    destruct Ha as [Ha | []]. injection Ha as <- <-.
    apply in_flat_map in Hb. destruct Hb as [a' [Ha' Hb]].
    apply in_flat_map in Hb. destruct Hb as [b' [_ Hb]].
    destruct ((a' =? 0)%Z && (b' =? 0)%Z)%bool; [destruct Hb |].
    destruct Hb as [Hb | []]. injection Hb as -> ->. contradiction.
Qed.

Example range_of_5 :
  range (- 5 / 2) (5 / 2) = [-3; -2; -1; 0; 1]%Z.
Proof. reflexivity. Qed.

Example range_of_1 : range (- 1 / 2) (1 / 2) = [-1]%Z.
Proof. reflexivity. Qed.

Example lattice_of_2 : lattice 2 = [(-1, -1); (-1, 0); (0, -1)]%Z.
Proof. reflexivity. Qed.

Example lattice_of_8_length : length (lattice 8) = 63%nat.
Proof. reflexivity. Qed.

(** C4, refuted: for the odd resolution 5 the sweep visits [(-3, -3)],
    which lies below [-5/2] (read as the real -2.5 or as the integer -2),
    and does not visit [(2, 2)], which lies inside [[-2.5, 2.5)]. *)
Lemma lattice_odd_resolution :
  In (-3, -3)%Z (lattice 5)
  /\ ~ - IZR 5 / 2 <= IZR (-3)
  /\ ~ (- (5 / 2) <= -3)%Z
  /\ ~ In (2, 2)%Z (lattice 5)
  /\ - IZR 5 / 2 <= IZR 2 < IZR 5 / 2.
Proof.
  assert (E1 : (Z.opp 5 / 2 = -3)%Z) by reflexivity.
  assert (E2 : (5 / 2 = 2)%Z) by reflexivity.
  split; [| split; [| split; [| split]]].
  - apply in_lattice. rewrite E1, E2. lia.
  - lra.
  - rewrite E2. lia.
  - rewrite in_lattice. rewrite E1, E2. lia.
  - lra.
Qed.

(** C4, amended: for every integer resolution the loops of
    [tessendorf_displacement] are one loop over [lattice resolution], which
    holds, each once, exactly the integer pairs [(nx, nz)] with [nx] and
    [nz] in the half-open range from [(-resolution) // 2] to
    [resolution // 2] (floor division), the pair [(0, 0)] excluded; for an
    even resolution [2 m] that range is [[-m, m)]. *)
Theorem lattice_floor_range (resolution : Z) :
  (forall nx nz : Z,
      In (nx, nz) (lattice resolution)
      <-> (- resolution / 2 <= nx < resolution / 2)%Z
          /\ (- resolution / 2 <= nz < resolution / 2)%Z
          /\ ~ (nx = 0%Z /\ nz = 0%Z))
  /\ NoDup (lattice resolution)
  /\ (forall m nx nz : Z,
         In (nx, nz) (lattice (2 * m))
         <-> (- m <= nx < m)%Z /\ (- m <= nz < m)%Z
             /\ ~ (nx = 0%Z /\ nz = 0%Z))
  /\ (forall (rng : Type) (random_seed : Z -> rng)
             (random_gauss : rng -> R * rng)
             (x z time patch_size wind_speed wind_dir_x wind_dir_z
                wave_amplitude choppiness : R)
             (seed : Z) (g : rng),
         tessendorf_displacement random_seed random_gauss x z time resolution
           patch_size wind_speed wind_dir_x wind_dir_z wave_amplitude
           choppiness seed g
         = bind (lift (float_div (2 * PI) patch_size))
             (fun dk =>
                bind (seed_random random_seed seed)
                  (fun _ =>
                     for_each (lattice resolution)
                       (fun n acc =>
                          wave_vector_body random_gauss x z time dk wind_speed
                            wind_dir_x wind_dir_z wave_amplitude choppiness
                            (fst n) (snd n) acc)
                       (0, 0, 0)))
             g).
Proof.
  split; [| split; [| split]].
  - intros nx nz. apply in_lattice.
  - apply NoDup_lattice.
  - intros m nx nz. rewrite in_lattice.
    replace (- (2 * m) / 2)%Z with (- m)%Z
      by (replace (- (2 * m))%Z with (- m * 2)%Z by lia;
          rewrite Z.div_mul by lia; reflexivity).
    replace (2 * m / 2)%Z with m
      by (rewrite Z.mul_comm, Z.div_mul by lia; reflexivity).
    reflexivity.
  - intros. unfold tessendorf_displacement, bind, lift.
    destruct (float_div (2 * PI) patch_size) as [dk | e]; [| reflexivity].
    unfold seed_random. apply sweep_lattice.
Qed.

(** ** The displacement as a whole *)



(** C3: the triple [tessendorf_displacement] returns for given arguments
    is the same from every state of the generator, so two calls in a row
    return identical triples, and so does a call made after an evaluation
    at another point, time or parameter set: the generator is reseeded at
    the start of every call. *)
Theorem tessendorf_displacement_deterministic
    (rng : Type) (random_seed : Z -> rng) (random_gauss : rng -> R * rng)
    (x z time : R) (resolution : Z)
    (patch_size wind_speed wind_dir_x wind_dir_z wave_amplitude
       choppiness : R)
    (seed : Z) :
  let call :=
    tessendorf_displacement random_seed random_gauss x z time resolution
      patch_size wind_speed wind_dir_x wind_dir_z wave_amplitude choppiness
      seed in
  (forall g g' : rng, fst (call g) = fst (call g'))
  /\ (forall g : rng, fst (call (snd (call g))) = fst (call g))
  /\ (forall (x' z' time' : R) (resolution' : Z)
             (patch_size' wind_speed' wind_dir_x' wind_dir_z' wave_amplitude'
                choppiness' : R)
             (seed' : Z) (g : rng),
         fst (call
                (snd (tessendorf_displacement random_seed random_gauss x' z'
                        time' resolution' patch_size' wind_speed' wind_dir_x'
                        wind_dir_z' wave_amplitude' choppiness' seed' g)))
         = fst (call g)).
Proof.
  intros call.
  assert (H : forall g g' : rng, fst (call g) = fst (call g')).
  { intros g g'. unfold call, tessendorf_displacement, bind, lift.
    destruct (float_div (2 * PI) patch_size) as [dk | e]; reflexivity. }
  split; [exact H | split]; intros; apply H.
Qed.






(** ** Choppiness *)

Section Choppiness.

Context {rng : Type}.
Variable random_seed : Z -> rng.
Variable random_gauss : rng -> R * rng.

(** One wave vector under choppiness [c], from accumulators scaled by [c],
    does what it does under choppiness 1, scaled by [c]. *)
Lemma wave_vector_body_choppiness
    (x z time dk wind_speed wind_dir_x wind_dir_z wave_amplitude c : R)
    (nx nz : Z) (acc : R * R * R) (g : rng) :
  wave_vector_body random_gauss x z time dk wind_speed wind_dir_x wind_dir_z
    wave_amplitude c nx nz (scale_displacement c acc) g
  = (rmap (scale_displacement c)
       (fst (wave_vector_body random_gauss x z time dk wind_speed wind_dir_x
               wind_dir_z wave_amplitude 1 nx nz acc g)),
     snd (wave_vector_body random_gauss x z time dk wind_speed wind_dir_x
            wind_dir_z wave_amplitude 1 nx nz acc g)).
Proof.
  destruct acc as [[h dx] dz].
  unfold wave_vector_body, scale_displacement, bind, lift, ret, gauss.
  destruct (math_sqrt (IZR nx * dk * (IZR nx * dk) + IZR nz * dk * (IZR nz * dk)))
    as [k | e]; [| reflexivity].
  destruct (Rlt_dec k 0.0001); [reflexivity |].
  destruct (phillips_spectrum (IZR nx * dk) (IZR nz * dk) wind_speed
              wind_dir_x wind_dir_z gravity_default) as [P | e];
    [| reflexivity].
  destruct (random_gauss g) as [g1 s1].
  destruct (math_sqrt (P * 0.5)) as [s | e]; [| reflexivity].
  destruct (random_gauss s1) as [g2 s2].
  destruct (math_sqrt (9.81 * k)) as [omega | e]; [| reflexivity].
  destruct (Rgt_dec k 0.0001).
  - destruct (float_div (IZR nx * dk) k) as [qx | e]; [| reflexivity].
    destruct (float_div (IZR nz * dk) k) as [qz | e]; [| reflexivity].
    cbn [fst snd rmap].
    same_outcome; ring.
  - reflexivity.
Qed.

Lemma for_each_choppiness
    (x z time dk wind_speed wind_dir_x wind_dir_z wave_amplitude c : R)
    (ns : list (Z * Z)) :
  forall (acc : R * R * R) (g : rng),
    for_each ns
      (fun n acc =>
         wave_vector_body random_gauss x z time dk wind_speed wind_dir_x
           wind_dir_z wave_amplitude c (fst n) (snd n) acc)
      (scale_displacement c acc) g
    = (rmap (scale_displacement c)
         (fst (for_each ns
                 (fun n acc =>
                    wave_vector_body random_gauss x z time dk wind_speed
                      wind_dir_x wind_dir_z wave_amplitude 1 (fst n) (snd n)
                      acc)
                 acc g)),
       snd (for_each ns
              (fun n acc =>
                 wave_vector_body random_gauss x z time dk wind_speed
                   wind_dir_x wind_dir_z wave_amplitude 1 (fst n) (snd n)
                   acc)
              acc g)).
Proof.
  induction ns as [| n ns IH]; intros acc g; cbn [for_each].
  - reflexivity.
  - unfold bind. rewrite wave_vector_body_choppiness.
    destruct (wave_vector_body random_gauss x z time dk wind_speed wind_dir_x
                wind_dir_z wave_amplitude 1 (fst n) (snd n) acc g)
      as [[acc' | e] g']; cbn [fst snd rmap]; [apply IH | reflexivity].
Qed.

(** The same for the whole call. *)
Lemma tessendorf_displacement_choppiness
    (x z time : R) (resolution : Z)
    (patch_size wind_speed wind_dir_x wind_dir_z wave_amplitude c : R)
    (seed : Z) (g : rng) :
  tessendorf_displacement random_seed random_gauss x z time resolution
    patch_size wind_speed wind_dir_x wind_dir_z wave_amplitude c seed g
  = (rmap (scale_displacement c)
       (fst (tessendorf_displacement random_seed random_gauss x z time
               resolution patch_size wind_speed wind_dir_x wind_dir_z
               wave_amplitude 1 seed g)),
     snd (tessendorf_displacement random_seed random_gauss x z time
            resolution patch_size wind_speed wind_dir_x wind_dir_z
            wave_amplitude 1 seed g)).
Proof.
  unfold tessendorf_displacement.
  unfold bind at 1 3 5. unfold lift.
  destruct (float_div (2 * PI) patch_size) as [dk | e]; [| reflexivity].
  unfold bind, seed_random.
  rewrite !sweep_lattice.
  replace (0, 0, 0) with (scale_displacement c (0, 0, 0)) at 1
    by (unfold scale_displacement; repeat f_equal; ring).
  apply for_each_choppiness.
Qed.

End Choppiness.


(** * Further properties of the spectrum *)

(** ** When [phillips_spectrum] raises *)

(** Past the guard a zero gravity or a zero wind speed meets a division. *)
Lemma phillips_spectrum_zero_divisor
    (kx kz wind_speed wind_dir_x wind_dir_z gravity : R) :
  ~ norm2 kx kz < 0.0001 ->
  gravity = 0 \/ wind_speed = 0 ->
  phillips_spectrum kx kz wind_speed wind_dir_x wind_dir_z gravity
  = Raise ZeroDivisionError.
Proof.
  intros Hk H. unfold phillips_spectrum.
  rewrite math_sqrt_sumsq. cbn [rbind].
  destruct (Rlt_dec (norm2 kx kz) 0.0001) as [? | _]; [contradiction |].
  destruct (Req_dec_T gravity 0) as [-> | Hg].
  { rewrite float_div_zero. reflexivity. }
  destruct H as [H | ->]; [contradiction |].
  rewrite float_div_nonzero by assumption. cbn [rbind].
  rewrite math_sqrt_sumsq. cbn [rbind].
  set (k := norm2 kx kz) in *.
  assert (Hkpos : 0 < k) by lra.
  set (w := norm2 wind_dir_x wind_dir_z).
  replace (0 * 0 / gravity) with 0 by (field; assumption).
  replace (k * 0 * (k * 0)) with 0 by ring.
  destruct (Rlt_dec w 0.0001) as [Hwl | Hwl].
  - repeat (rewrite float_div_nonzero by (assumption || lra); cbn [rbind]).
    rewrite float_div_zero. reflexivity.
  - assert (Hwpos : 0 < w) by lra.
    repeat (rewrite float_div_nonzero by (assumption || lra); cbn [rbind]).
    rewrite float_div_zero. reflexivity.
Qed.



(** ** Which waves carry energy *)



(** ** An upper bound of the energy *)

(** The unit wind vector has length 1. *)
Lemma wind_unit_length (wind_dir_x wind_dir_z : R) :
  fst (wind_unit wind_dir_x wind_dir_z) * fst (wind_unit wind_dir_x wind_dir_z)
  + snd (wind_unit wind_dir_x wind_dir_z)
    * snd (wind_unit wind_dir_x wind_dir_z)
  = 1.
Proof.
  unfold wind_unit.
  destruct (Rlt_dec (norm2 wind_dir_x wind_dir_z) 0.0001) as [H | H];
    cbn [fst snd]; [ring |].
  assert (Hsq : norm2 wind_dir_x wind_dir_z * norm2 wind_dir_x wind_dir_z
                = wind_dir_x * wind_dir_x + wind_dir_z * wind_dir_z).
  { unfold norm2. apply sqrt_sqrt. apply sumsq_nonneg. }
  set (n := norm2 wind_dir_x wind_dir_z) in *.
  assert (Hn : 0 < n) by lra.
  replace (wind_dir_x / n * (wind_dir_x / n) + wind_dir_z / n * (wind_dir_z / n))
    with ((wind_dir_x * wind_dir_x + wind_dir_z * wind_dir_z) / (n * n))
    by (field; lra).
  rewrite <- Hsq. field. lra.
Qed.

(** The alignment is a cosine: it lies between -1 and 1. *)
Lemma alignment_bounds (kx kz wind_dir_x wind_dir_z : R) :
  0 < norm2 kx kz ->
  -1 <= alignment kx kz wind_dir_x wind_dir_z <= 1.
Proof.
  intros Hk. unfold alignment.
  pose proof (wind_unit_length wind_dir_x wind_dir_z) as Hw.
  set (wx := fst (wind_unit wind_dir_x wind_dir_z)) in *.
  set (wz := snd (wind_unit wind_dir_x wind_dir_z)) in *.
  assert (Hsq : norm2 kx kz * norm2 kx kz = kx * kx + kz * kz).
  { unfold norm2. apply sqrt_sqrt. apply sumsq_nonneg. }
  set (k := norm2 kx kz) in *.
  replace (kx / k * wx + kz / k * wz) with ((kx * wx + kz * wz) / k)
    by (field; lra).
  set (s := kx * wx + kz * wz).
  assert (Hs : s * s <= k * k).
  { rewrite Hsq. unfold s.
    pose proof (Rle_0_sqr (kx * wz - kz * wx)) as H. unfold Rsqr in H.
    assert (E : (kx * kx + kz * kz) * (wx * wx + wz * wz)
                - (kx * wx + kz * wz) * (kx * wx + kz * wz)
                = (kx * wz - kz * wx) * (kx * wz - kz * wx)) by ring.
    rewrite Hw in E. lra. }
  assert (Hs1 : - k <= s <= k).
  { split.
    - destruct (Rle_dec (- k) s) as [? | Hn]; [assumption | exfalso].
      assert (k < - s) by lra.
      assert (k * k < - s * - s) by (apply Rmult_le_0_lt_compat; lra).
      lra.
    - destruct (Rle_dec s k) as [? | Hn]; [assumption | exfalso].
      assert (k < s) by lra.
      assert (k * k < s * s) by (apply Rmult_le_0_lt_compat; lra).
      lra. }
  split.
  - apply Rmult_le_reg_r with k; [assumption |].
    replace (s / k * k) with s by (field; lra). lra.
  - apply Rmult_le_reg_r with k; [assumption |].
    replace (s / k * k) with s by (field; lra). lra.
Qed.

Lemma exp_nonpos_le_1 (x : R) : x <= 0 -> exp x <= 1.
Proof. intros H. rewrite <- exp_0. apply exp_le. assumption. Qed.



(** * Further properties of the displacement *)

(** ** The surface tiles with period [patch_size] *)

Lemma cos_period_Z (a : R) (n : Z) : cos (a + 2 * IZR n * PI) = cos a.
Proof.
  destruct (Z_le_gt_dec 0 n) as [Hn | Hn].
  - rewrite <- (Z2Nat.id n) by assumption.
    rewrite <- INR_IZR_INZ. apply cos_period.
  - rewrite <- (cos_period (a + 2 * IZR n * PI) (Z.to_nat (- n))).
    rewrite INR_IZR_INZ, Z2Nat.id by lia. rewrite opp_IZR.
    f_equal. ring.
Qed.

Lemma sin_period_Z (a : R) (n : Z) : sin (a + 2 * IZR n * PI) = sin a.
Proof.
  destruct (Z_le_gt_dec 0 n) as [Hn | Hn].
  - rewrite <- (Z2Nat.id n) by assumption.
    rewrite <- INR_IZR_INZ. apply sin_period.
  - rewrite <- (sin_period (a + 2 * IZR n * PI) (Z.to_nat (- n))).
    rewrite INR_IZR_INZ, Z2Nat.id by lia. rewrite opp_IZR.
    f_equal. ring.
Qed.

Section Tiling.

Context {rng : Type}.
Variable random_seed : Z -> rng.
Variable random_gauss : rng -> R * rng.

(** Moving the point by whole patches changes the spatial phase of a
    lattice wave by a multiple of [2 pi]. *)
Lemma wave_vector_body_period
    (x z time patch_size wind_speed wind_dir_x wind_dir_z wave_amplitude
       choppiness : R)
    (i j nx nz : Z) (acc : R * R * R) (g : rng) :
  patch_size <> 0 ->
  wave_vector_body random_gauss (x + IZR i * patch_size)
    (z + IZR j * patch_size) time (2 * PI / patch_size) wind_speed wind_dir_x
    wind_dir_z wave_amplitude choppiness nx nz acc g
  = wave_vector_body random_gauss x z time (2 * PI / patch_size) wind_speed
      wind_dir_x wind_dir_z wave_amplitude choppiness nx nz acc g.
Proof.
  intros Hp.
  set (dk := 2 * PI / patch_size).
  assert (Hphase :
            IZR nx * dk * (x + IZR i * patch_size)
            + IZR nz * dk * (z + IZR j * patch_size)
            = IZR nx * dk * x + IZR nz * dk * z
              + 2 * IZR (nx * i + nz * j) * PI).
  { rewrite plus_IZR, !mult_IZR. unfold dk. field. assumption. }
  unfold wave_vector_body.
  rewrite Hphase, cos_period_Z, sin_period_Z. reflexivity.
Qed.

End Tiling.


(** ** Wave amplitude *)

Section Amplitude.

Context {rng : Type}.
Variable random_seed : Z -> rng.
Variable random_gauss : rng -> R * rng.

Lemma wave_vector_body_amplitude
    (x z time dk wind_speed wind_dir_x wind_dir_z a choppiness : R)
    (nx nz : Z) (acc : R * R * R) (g : rng) :
  wave_vector_body random_gauss x z time dk wind_speed wind_dir_x wind_dir_z
    a choppiness nx nz (scale_triple a acc) g
  = (rmap (scale_triple a)
       (fst (wave_vector_body random_gauss x z time dk wind_speed wind_dir_x
               wind_dir_z 1 choppiness nx nz acc g)),
     snd (wave_vector_body random_gauss x z time dk wind_speed wind_dir_x
            wind_dir_z 1 choppiness nx nz acc g)).
Proof.
  destruct acc as [[h dx] dz].
  unfold wave_vector_body, scale_triple, bind, lift, ret, gauss.
  destruct (math_sqrt (IZR nx * dk * (IZR nx * dk) + IZR nz * dk * (IZR nz * dk)))
    as [k | e]; [| reflexivity].
  destruct (Rlt_dec k 0.0001); [reflexivity |].
  destruct (phillips_spectrum (IZR nx * dk) (IZR nz * dk) wind_speed
              wind_dir_x wind_dir_z gravity_default) as [P | e];
    [| reflexivity].
  destruct (random_gauss g) as [g1 s1].
  destruct (math_sqrt (P * 0.5)) as [s | e]; [| reflexivity].
  destruct (random_gauss s1) as [g2 s2].
  destruct (math_sqrt (9.81 * k)) as [omega | e]; [| reflexivity].
  destruct (Rgt_dec k 0.0001).
  - destruct (float_div (IZR nx * dk) k) as [qx | e]; [| reflexivity].
    destruct (float_div (IZR nz * dk) k) as [qz | e]; [| reflexivity].
    cbn [fst snd rmap]. same_outcome; ring.
  - cbn [fst snd rmap]. same_outcome; ring.
Qed.

Lemma for_each_amplitude
    (x z time dk wind_speed wind_dir_x wind_dir_z a choppiness : R)
    (ns : list (Z * Z)) :
  forall (acc : R * R * R) (g : rng),
    for_each ns
      (fun n acc =>
         wave_vector_body random_gauss x z time dk wind_speed wind_dir_x
           wind_dir_z a choppiness (fst n) (snd n) acc)
      (scale_triple a acc) g
    = (rmap (scale_triple a)
         (fst (for_each ns
                 (fun n acc =>
                    wave_vector_body random_gauss x z time dk wind_speed
                      wind_dir_x wind_dir_z 1 choppiness (fst n) (snd n)
                      acc)
                 acc g)),
       snd (for_each ns
              (fun n acc =>
                 wave_vector_body random_gauss x z time dk wind_speed
                   wind_dir_x wind_dir_z 1 choppiness (fst n) (snd n)
                   acc)
              acc g)).
Proof.
  induction ns as [| n ns IH]; intros acc g; cbn [for_each].
  - reflexivity.
  - unfold bind. rewrite wave_vector_body_amplitude.
    destruct (wave_vector_body random_gauss x z time dk wind_speed wind_dir_x
                wind_dir_z 1 choppiness (fst n) (snd n) acc g)
      as [[acc' | e] g']; cbn [fst snd rmap]; [apply IH | reflexivity].
Qed.

Lemma tessendorf_displacement_amplitude
    (x z time : R) (resolution : Z)
    (patch_size wind_speed wind_dir_x wind_dir_z a choppiness : R)
    (seed : Z) (g : rng) :
  tessendorf_displacement random_seed random_gauss x z time resolution
    patch_size wind_speed wind_dir_x wind_dir_z a choppiness seed g
  = (rmap (scale_triple a)
       (fst (tessendorf_displacement random_seed random_gauss x z time
               resolution patch_size wind_speed wind_dir_x wind_dir_z
               1 choppiness seed g)),
     snd (tessendorf_displacement random_seed random_gauss x z time
            resolution patch_size wind_speed wind_dir_x wind_dir_z
            1 choppiness seed g)).
Proof.
  unfold tessendorf_displacement.
  unfold bind at 1 3 5. unfold lift.
  destruct (float_div (2 * PI) patch_size) as [dk | e]; [| reflexivity].
  unfold bind, seed_random.
  rewrite !sweep_lattice.
  replace (0, 0, 0) with (scale_triple a (0, 0, 0)) at 1
    by (unfold scale_triple; repeat f_equal; ring).
  apply for_each_amplitude.
Qed.

End Amplitude.


(** ** The surface stays bounded in space and time *)

Lemma Rabs_rotation (p q c d : R) :
  -1 <= c <= 1 -> -1 <= d <= 1 -> Rabs (p * c - q * d) <= Rabs p + Rabs q.
Proof.
  intros Hc Hd.
  assert (Hpc : Rabs (p * c) <= Rabs p).
  { rewrite Rabs_mult. pose proof (Rabs_pos p).
    assert (Rabs c <= 1) by (apply Rabs_le; lra). nra. }
  assert (Hqd : Rabs (q * d) <= Rabs q).
  { rewrite Rabs_mult. pose proof (Rabs_pos q).
    assert (Rabs d <= 1) by (apply Rabs_le; lra). nra. }
  unfold Rminus.
  apply Rle_trans with (Rabs (p * c) + Rabs (- (q * d)));
    [apply Rabs_triang |].
  rewrite Rabs_Ropp. lra.
Qed.

Lemma wave_term_abs_bound
    (x z time dk wind_speed wind_dir_x wind_dir_z wave_amplitude : R)
    (w : Z * Z * R * R) :
  Rabs (wave_term x z time dk wind_speed wind_dir_x wind_dir_z
          wave_amplitude w)
  <= wave_term_bound dk wind_speed wind_dir_x wind_dir_z wave_amplitude w.
Proof.
  destruct w as [[[nx nz] g1] g2].
  unfold wave_term, wave_term_bound.
  set (kx := IZR nx * dk). set (kz := IZR nz * dk).
  set (s := sqrt (phillips_formula kx kz wind_speed wind_dir_x wind_dir_z / 2)).
  set (theta := sqrt (9.81 * norm2 kx kz) * time).
  set (phi := kx * x + kz * z).
  assert (Hs : 0 <= s) by apply sqrt_pos.
  pose proof (COS_bound theta) as Hct. pose proof (SIN_bound theta) as Hst.
  pose proof (COS_bound phi) as Hcp. pose proof (SIN_bound phi) as Hsp.
  set (p := g1 * s). set (q := g2 * s).
  assert (Hp : Rabs p = Rabs g1 * s)
    by (unfold p; rewrite Rabs_mult, (Rabs_right s) by lra; reflexivity).
  assert (Hq : Rabs q = Rabs g2 * s)
    by (unfold q; rewrite Rabs_mult, (Rabs_right s) by lra; reflexivity).
  pose proof (Rabs_rotation p q (cos theta) (sin theta) Hct Hst) as H1.
  assert (H2 : Rabs (p * sin theta + q * cos theta) <= Rabs p + Rabs q).
  { replace (p * sin theta + q * cos theta)
      with (p * sin theta - (- q) * cos theta) by ring.
    rewrite <- (Rabs_Ropp q). apply Rabs_rotation; assumption. }
  pose proof (Rabs_rotation (p * cos theta - q * sin theta)
                (p * sin theta + q * cos theta) (cos phi) (sin phi) Hcp Hsp)
    as H3.
  rewrite Rabs_mult.
  apply Rmult_le_compat_l; [apply Rabs_pos |].
  rewrite Hp, Hq in *. lra.
Qed.

Lemma component_le_norm2 (a b : R) : Rabs a <= norm2 a b /\ Rabs b <= norm2 a b.
Proof.
  unfold norm2. split.
  - rewrite <- sqrt_Rsqr_abs. apply sqrt_le_1_alt. unfold Rsqr. nra.
  - rewrite <- sqrt_Rsqr_abs. apply sqrt_le_1_alt. unfold Rsqr. nra.
Qed.

Lemma chop_term_abs_bound
    (x z time dk wind_speed wind_dir_x wind_dir_z wave_amplitude
       choppiness : R)
    (axis : Z * Z -> Z) (w : Z * Z * R * R) :
  axis = fst \/ axis = snd ->
  Rabs (chop_term x z time dk wind_speed wind_dir_x wind_dir_z
          wave_amplitude choppiness axis w)
  <= Rabs choppiness
     * wave_term_bound dk wind_speed wind_dir_x wind_dir_z wave_amplitude w.
Proof.
  intros Haxis.
  pose proof (wave_term_abs_bound x z time dk wind_speed wind_dir_x
                wind_dir_z wave_amplitude w) as Hw.
  assert (Hb : 0 <= wave_term_bound dk wind_speed wind_dir_x wind_dir_z
                      wave_amplitude w).
  { eapply Rle_trans; [apply Rabs_pos | exact Hw]. }
  destruct w as [[[nx nz] g1] g2]. unfold chop_term.
  set (t := wave_term x z time dk wind_speed wind_dir_x wind_dir_z
              wave_amplitude (nx, nz, g1, g2)) in *.
  set (b := wave_term_bound dk wind_speed wind_dir_x wind_dir_z
              wave_amplitude (nx, nz, g1, g2)) in *.
  set (k := norm2 (IZR nx * dk) (IZR nz * dk)).
  pose proof (Rabs_pos choppiness) as Hc.
  destruct (Rgt_dec k 0.0001) as [Hk | Hk].
  - assert (Hq : Rabs (IZR (axis (nx, nz)) * dk / k) <= 1).
    { assert (Hn : Rabs (IZR (axis (nx, nz)) * dk) <= k).
      { pose proof (component_le_norm2 (IZR nx * dk) (IZR nz * dk)) as [? ?].
        destruct Haxis as [-> | ->]; cbn [fst snd]; assumption. }
      unfold Rdiv. rewrite Rabs_mult, (Rabs_right (/ k)).
      - apply Rmult_le_reg_r with k; [lra |].
        rewrite Rmult_assoc, Rinv_l by lra. lra.
      - left. apply Rinv_0_lt_compat. lra. }
    rewrite !Rabs_mult, Rabs_Ropp.
    pose proof (Rabs_pos (IZR (axis (nx, nz)) * dk / k)).
    pose proof (Rabs_pos t).
    apply Rle_trans with (Rabs choppiness * 1 * Rabs t).
    + apply Rmult_le_compat_r; [assumption |].
      apply Rmult_le_compat_l; assumption.
    + rewrite Rmult_1_r. apply Rmult_le_compat_l; assumption.
  - rewrite Rabs_R0. apply Rmult_le_pos; assumption.
Qed.

Lemma Rsum_abs_bound {A : Type} (f b : A -> R) (l : list A) :
  (forall a : A, Rabs (f a) <= b a) ->
  Rabs (Rsum (map f l)) <= Rsum (map b l).
Proof.
  intros H. induction l as [| a l IH]; cbn [map Rsum fold_right].
  - rewrite Rabs_R0. lra.
  - eapply Rle_trans; [apply Rabs_triang |].
    specialize (H a). unfold Rsum in IH. lra.
Qed.

Lemma Rsum_scale {A : Type} (c : R) (b : A -> R) (l : list A) :
  Rsum (map (fun a => c * b a) l) = c * Rsum (map b l).
Proof.
  induction l as [| a l IH]; cbn [map Rsum fold_right].
  - ring.
  - unfold Rsum in IH. rewrite IH. ring.
Qed.



(** ** Degenerate parameters: no wind, a huge patch *)

Lemma PI_gt_3 : 3 < PI.
Proof. pose proof PI2_3_2. lra. Qed.

Lemma norm2_lt (a b c : R) : 0 <= c -> a * a + b * b < c * c -> norm2 a b < c.
Proof.
  intros Hc H. unfold norm2.
  rewrite <- (sqrt_square c) by assumption.
  apply sqrt_lt_1_alt. split; [apply sumsq_nonneg | assumption].
Qed.

Section Degenerate.

Context {rng : Type}.
Variable random_seed : Z -> rng.
Variable random_gauss : rng -> R * rng.

(** Without wind the first wave vector past the guard stops the sweep, in
    [phillips_spectrum], before any draw. *)
Lemma wave_vector_body_zero_wind
    (x z time dk wind_dir_x wind_dir_z wave_amplitude choppiness : R)
    (nx nz : Z) (acc : R * R * R) (g : rng) :
  ~ norm2 (IZR nx * dk) (IZR nz * dk) < 0.0001 ->
  wave_vector_body random_gauss x z time dk 0 wind_dir_x wind_dir_z
    wave_amplitude choppiness nx nz acc g
  = (Raise ZeroDivisionError, g).
Proof.
  intros Hk. destruct acc as [[h dx] dz].
  unfold wave_vector_body, bind, lift, ret.
  rewrite math_sqrt_sumsq.
  destruct (Rlt_dec (norm2 (IZR nx * dk) (IZR nz * dk)) 0.0001) as [? | _];
    [contradiction |].
  rewrite phillips_spectrum_zero_divisor by (assumption || (right; reflexivity)).
  reflexivity.
Qed.

Lemma for_each_zero_wind
    (x z time dk wind_dir_x wind_dir_z wave_amplitude choppiness : R)
    (ns : list (Z * Z)) :
  forall (acc : R * R * R) (g : rng),
    for_each ns
      (fun n acc =>
         wave_vector_body random_gauss x z time dk 0 wind_dir_x wind_dir_z
           wave_amplitude choppiness (fst n) (snd n) acc)
      acc g
    = if existsb (past_guard dk) ns
      then (Raise ZeroDivisionError, g)
      else (Ok acc, g).
Proof.
  induction ns as [| [nx nz] ns IH]; intros acc g;
    cbn [for_each existsb fst snd].
  - reflexivity.
  - unfold bind.
    destruct (Rlt_dec (norm2 (IZR nx * dk) (IZR nz * dk)) 0.0001) as [Hk | Hk].
    + rewrite past_guard_false by assumption.
      rewrite wave_vector_body_below_guard by assumption.
      cbn [orb]. apply IH.
    + rewrite past_guard_true by assumption.
      rewrite wave_vector_body_zero_wind by assumption. reflexivity.
Qed.

(** When every wave vector of the list is below the guard nothing
    happens. *)
Lemma for_each_all_below_guard
    (x z time dk wind_speed wind_dir_x wind_dir_z wave_amplitude
       choppiness : R)
    (ns : list (Z * Z)) :
  (forall n : Z * Z, In n ns -> past_guard dk n = false) ->
  forall (acc : R * R * R) (g : rng),
    for_each ns
      (fun n acc =>
         wave_vector_body random_gauss x z time dk wind_speed wind_dir_x
           wind_dir_z wave_amplitude choppiness (fst n) (snd n) acc)
      acc g
    = (Ok acc, g).
Proof.
  induction ns as [| [nx nz] ns IH]; intros Hall acc g; cbn [for_each fst snd].
  - reflexivity.
  - unfold bind.
    assert (Hn : past_guard dk (nx, nz) = false) by (apply Hall; left; reflexivity).
    unfold past_guard in Hn. cbn [fst snd] in Hn.
    destruct (Rlt_dec (norm2 (IZR nx * dk) (IZR nz * dk)) 0.0001) as [Hk | Hk];
      [| discriminate].
    rewrite wave_vector_body_below_guard by assumption.
    apply IH. intros n Hin. apply Hall. right. assumption.
Qed.

End Degenerate.

(** The wave vector [(-1, -1)] is swept for every resolution [>= 1]. *)
Lemma lattice_has_m1_m1 (resolution : Z) :
  (1 <= resolution)%Z -> In (-1, -1)%Z (lattice resolution).
Proof.
  intros Hr. apply in_lattice.
  assert (- resolution / 2 < 0)%Z
    by (apply Z.div_lt_upper_bound; lia).
  assert (0 <= resolution / 2)%Z by (apply Z.div_pos; lia).
  lia.
Qed.



(** The indices of the sweep are at most [resolution] in absolute value. *)
Lemma lattice_index_bound (resolution nx nz : Z) :
  (1 <= resolution)%Z ->
  In (nx, nz) (lattice resolution) ->
  (- resolution <= nx < resolution)%Z /\ (- resolution <= nz < resolution)%Z.
Proof.
  intros Hr Hin. apply in_lattice in Hin.
  assert (- resolution <= - resolution / 2)%Z
    by (apply Z.div_le_lower_bound; lia).
  assert (resolution / 2 <= resolution)%Z
    by (apply Z.div_le_upper_bound; lia).
  lia.
Qed.

(** X8: With [resolution >= 1] and a patch size of at least
    [200000 * resolution], every swept wave vector is below the guard
    [|k| < 1e-4]: whatever the wind, the amplitude and the point, the call
    raises nothing, consumes no draw and returns the flat surface
    [(0, 0, 0)]. *)
Theorem tessendorf_displacement_huge_patch
    (rng : Type) (random_seed : Z -> rng) (random_gauss : rng -> R * rng)
    (x z time : R) (resolution : Z)
    (patch_size wind_speed wind_dir_x wind_dir_z wave_amplitude
       choppiness : R)
    (seed : Z) (g : rng) :
  (1 <= resolution)%Z ->
  200000 * IZR resolution <= patch_size ->
  tessendorf_displacement random_seed random_gauss x z time resolution
    patch_size wind_speed wind_dir_x wind_dir_z wave_amplitude choppiness
    seed g
  = (Ok (0, 0, 0), random_seed seed).
Proof.
  intros Hr Hp.
  assert (Hr1 : 1 <= IZR resolution) by (apply IZR_le; assumption).
  assert (Hp0 : 0 < patch_size) by lra.
  unfold tessendorf_displacement, bind, lift.
  rewrite float_div_nonzero by lra.
  unfold seed_random. rewrite sweep_lattice.
  apply for_each_all_below_guard.
  intros [nx nz] Hin.
  apply lattice_index_bound in Hin; [| assumption].
  destruct Hin as [[Hx1 Hx2] [Hz1 Hz2]].
  apply IZR_le in Hx1, Hz1. apply IZR_lt in Hx2, Hz2.
  rewrite opp_IZR in Hx1, Hz1.
  apply past_guard_false.
  set (dk := 2 * PI / patch_size).
  assert (Hdk0 : 0 < dk).
  { unfold dk. apply Rdiv_lt_0_compat; [pose proof PI_RGT_0; lra | lra]. }
  assert (Hdk : dk * IZR resolution <= 0.00004).
  { unfold dk. pose proof PI_4. pose proof PI_RGT_0.
    apply Rmult_le_reg_r with patch_size; [lra |].
    replace (2 * PI / patch_size * IZR resolution * patch_size)
      with (2 * PI * IZR resolution) by (field; lra).
    apply Rle_trans with (8 * IZR resolution); [nra | nra]. }
  assert (Hkx : - 0.00004 <= IZR nx * dk <= 0.00004) by (split; nra).
  assert (Hkz : - 0.00004 <= IZR nz * dk <= 0.00004) by (split; nra).
  apply norm2_lt; [lra |].
  assert (IZR nx * dk * (IZR nx * dk) <= 0.00004 * 0.00004) by nra.
  assert (IZR nz * dk * (IZR nz * dk) <= 0.00004 * 0.00004) by nra.
  lra.
Qed.

Lemma tessendorf_displacement_huge_patch_witness :
  tessendorf_displacement counting_seed counting_gauss 3 4 5 8 1600000 15 1 0
    1 1 42 (counting_seed 7)
  = (Ok (0, 0, 0), counting_seed 42).
Proof.
  apply (tessendorf_displacement_huge_patch _ counting_seed counting_gauss
           3 4 5 8 1600000 15 1 0 1 1 42 (counting_seed 7)); [lia | lra].
Defined.

(** ** The size of the sweep *)

Lemma length_range (a b : Z) : length (range a b) = Z.to_nat (b - a).
Proof. unfold range. rewrite length_map, length_seq. reflexivity. Qed.

Lemma length_filter_eqb (l : list Z) :
  NoDup l -> In 0%Z l -> length (filter (fun a => (a =? 0)%Z) l) = 1%nat.
Proof.
  induction l as [| a l IH]; intros Hnd Hin; [destruct Hin |].
  inversion Hnd as [| ? ? Hna Hnd']; subst. cbn [filter].
  destruct (Z.eqb_spec a 0) as [-> | Hne].
  - cbn [length]. f_equal.
    clear IH Hin Hnd Hnd'. induction l as [| b l IH]; [reflexivity |].
    cbn [filter]. destruct (Z.eqb_spec b 0) as [-> | _].
    + exfalso. apply Hna. left. reflexivity.
    + apply IH. intros H. apply Hna. right. assumption.
  - apply IH; [assumption |]. destruct Hin as [-> | Hin];
      [contradiction | assumption].
Qed.

(** One row of the sweep misses one pair, [(0, 0)], when [nx = 0]. *)
Lemma length_lattice_row (nx : Z) (r : list Z) :
  NoDup r -> In 0%Z r ->
  (length (flat_map
             (fun nz =>
                if ((nx =? 0)%Z && (nz =? 0)%Z)%bool then [] else [(nx, nz)])
             r)
   + (if (nx =? 0)%Z then 1 else 0)
   = length r)%nat.
Proof.
  intros Hnd Hin.
  destruct (Z.eqb_spec nx 0) as [-> | Hne]; cbn [andb].
  - rewrite <- (length_filter_eqb r Hnd Hin).
    clear Hnd Hin. induction r as [| b r IH]; [reflexivity |].
    cbn [flat_map filter].
    destruct (b =? 0)%Z; cbn [app length]; lia.
  - clear Hnd Hin. induction r as [| b r IH]; [reflexivity |].
    cbn [flat_map app length]. lia.
Qed.

Lemma length_lattice_rows (r l : list Z) :
  NoDup r -> In 0%Z r ->
  (length (flat_map
             (fun nx =>
                flat_map
                  (fun nz =>
                     if ((nx =? 0)%Z && (nz =? 0)%Z)%bool
                     then [] else [(nx, nz)])
                  r)
             l)
   + length (filter (fun a => (a =? 0)%Z) l)
   = length l * length r)%nat.
Proof.
  intros Hnd Hin. induction l as [| a l IH]; [reflexivity |].
  cbn [flat_map filter]. rewrite length_app.
  pose proof (length_lattice_row a r Hnd Hin) as Hrow.
  destruct (a =? 0)%Z; cbn [length]; lia.
Qed.

Lemma range_width (resolution : Z) :
  (resolution / 2 - - resolution / 2 = resolution)%Z.
Proof. Z.div_mod_to_equations. lia. Qed.

(** X9: For [resolution >= 2] the sweep holds [resolution^2 - 1] wave vectors
    (the full square of indices without [(0, 0)]); for a resolution
    [<= 0] it holds none. *)
Theorem lattice_size (resolution : Z) :
  ((2 <= resolution)%Z ->
   Z.of_nat (length (lattice resolution)) = (resolution * resolution - 1)%Z)
  /\ ((resolution <= 0)%Z -> lattice resolution = []).
Proof.
  split.
  - intros Hr. unfold lattice.
    set (r := range (- resolution / 2) (resolution / 2)).
    assert (Hin : In 0%Z r).
    { apply in_range.
      assert (- resolution / 2 < 0)%Z by (apply Z.div_lt_upper_bound; lia).
      assert (1 <= resolution / 2)%Z by (apply Z.div_le_lower_bound; lia).
      lia. }
    pose proof (NoDup_range (- resolution / 2) (resolution / 2)) as Hnd.
    fold r in Hnd.
    pose proof (length_lattice_rows r r Hnd Hin) as H.
    rewrite (length_filter_eqb r Hnd Hin) in H.
    assert (Hlen : length r = Z.to_nat resolution).
    { unfold r. rewrite length_range, range_width. reflexivity. }
    rewrite Hlen in H. nia.
  - intros Hr. unfold lattice.
    assert (Hempty : range (- resolution / 2) (resolution / 2) = []).
    { apply length_zero_iff_nil. rewrite length_range, range_width. lia. }
    rewrite Hempty. reflexivity.
Qed.

Lemma lattice_size_witness :
  Z.of_nat (length (lattice 8)) = (8 * 8 - 1)%Z /\ lattice 0 = [].
Proof.
  split.
  - apply (proj1 (lattice_size 8)). lia.
  - apply (proj2 (lattice_size 0)). lia.
Defined.

(** * The vertex loop of [apply_tessendorf_to_mesh] *)

Section MeshFacts.

Context {rng : Type}.
Variable random_seed : Z -> rng.
Variable random_gauss : rng -> R * rng.

(** Whether [tessendorf_displacement] raises does not depend on the point,
    the time or the state of the generator. *)
Lemma tessendorf_displacement_outcome
    (resolution : Z)
    (patch_size wind_speed wind_dir_x wind_dir_z wave_amplitude
       choppiness : R)
    (seed : Z) :
  (forall (x z time : R) (g : rng),
      exists (t : R * R * R) (g' : rng),
        tessendorf_displacement random_seed random_gauss x z time resolution
          patch_size wind_speed wind_dir_x wind_dir_z wave_amplitude
          choppiness seed g
        = (Ok t, g'))
  \/ (forall (x z time : R) (g : rng),
         exists g' : rng,
           tessendorf_displacement random_seed random_gauss x z time
             resolution patch_size wind_speed wind_dir_x wind_dir_z
             wave_amplitude choppiness seed g
           = (Raise ZeroDivisionError, g')).
Proof.
  destruct (Req_dec_T patch_size 0) as [-> | Hp].
  { right. intros. eexists. apply tessendorf_displacement_patch_zero. }
  destruct (Req_dec_T wind_speed 0) as [-> | Hw].
  - destruct (existsb (past_guard (2 * PI / patch_size)) (lattice resolution))
      eqn:E.
    + right. intros. eexists.
      unfold tessendorf_displacement, bind, lift.
      rewrite float_div_nonzero by assumption. unfold seed_random.
      rewrite sweep_lattice, for_each_zero_wind, E. reflexivity.
    + left. intros. do 2 eexists.
      unfold tessendorf_displacement, bind, lift.
      rewrite float_div_nonzero by assumption. unfold seed_random.
      rewrite sweep_lattice, for_each_zero_wind, E. reflexivity.
  - left. intros. do 2 eexists.
    apply tessendorf_displacement_value; assumption.
Qed.

(** Nor does it depend on the vertex whether its new position is
    computed. *)
Lemma vertex_position_outcome
    (obj_width obj_depth center_x center_z : R) (resolution : Z)
    (patch_size wind_speed wind_dir_x wind_dir_z wave_amplitude choppiness
       time_value : R)
    (seed : Z) :
  (forall (orig : R * R * R) (g : rng),
      exists (new : R * R * R) (g' : rng),
        vertex_position random_seed random_gauss obj_width obj_depth center_x
          center_z resolution patch_size wind_speed wind_dir_x wind_dir_z
          wave_amplitude choppiness time_value seed orig g
        = (Ok new, g'))
  \/ (forall (orig : R * R * R) (g : rng),
         exists g' : rng,
           vertex_position random_seed random_gauss obj_width obj_depth
             center_x center_z resolution patch_size wind_speed wind_dir_x
             wind_dir_z wave_amplitude choppiness time_value seed orig g
           = (Raise ZeroDivisionError, g')).
Proof.
  destruct (Req_dec_T obj_width 0) as [-> | Hwd].
  { right. intros [[ox oy] oz] g. eexists.
    unfold vertex_position, bind, lift. rewrite float_div_zero. reflexivity. }
  destruct (Req_dec_T obj_depth 0) as [-> | Hdp].
  { right. intros [[ox oy] oz] g. eexists.
    unfold vertex_position, bind, lift.
    rewrite float_div_nonzero by assumption.
    rewrite float_div_zero. reflexivity. }
  destruct (tessendorf_displacement_outcome resolution patch_size wind_speed
              wind_dir_x wind_dir_z wave_amplitude choppiness seed)
    as [Hok | Hraise].
  - left. intros [[ox oy] oz] g.
    unfold vertex_position, bind, lift.
    rewrite !float_div_nonzero by assumption.
    destruct (Hok ((ox - center_x) / obj_width * patch_size)
                ((oz - center_z) / obj_depth * patch_size) time_value g)
      as [[[h dx] dz] [g' E]].
    rewrite E. do 2 eexists. reflexivity.
  - right. intros [[ox oy] oz] g.
    unfold vertex_position, bind, lift.
    rewrite !float_div_nonzero by assumption.
    destruct (Hraise ((ox - center_x) / obj_width * patch_size)
                ((oz - center_z) / obj_depth * patch_size) time_value g)
      as [g' E].
    rewrite E. eexists. reflexivity.
Qed.

Lemma write_vertices_all
    (position : R * R * R -> M rng (R * R * R))
    (original_positions : list (R * R * R)) :
  (forall (orig : R * R * R) (g : rng),
      exists (new : R * R * R) (g' : rng), position orig g = (Ok new, g')) ->
  forall (written : list (R * R * R)) (g : rng),
  exists (new : list (R * R * R)) (g' : rng),
    write_vertices position original_positions written g
    = (Ok tt, written ++ new, g')
    /\ length new = length original_positions.
Proof.
  intros Hok.
  induction original_positions as [| orig rest IH]; intros written g;
    cbn [write_vertices].
  - exists [], g. rewrite app_nil_r. split; reflexivity.
  - destruct (Hok orig g) as [p [g1 E]]. rewrite E.
    destruct (IH (written ++ [p]) g1) as [new [g' [E' Hlen]]].
    exists (p :: new), g'. rewrite E', <- app_assoc. cbn [app length].
    split; [reflexivity | lia].
Qed.

Lemma write_vertices_none
    (position : R * R * R -> M rng (R * R * R)) (e : exn)
    (orig : R * R * R) (rest written : list (R * R * R)) (g : rng) :
  (forall (orig : R * R * R) (g : rng),
      exists g' : rng, position orig g = (Raise e, g')) ->
  exists g' : rng,
    write_vertices position (orig :: rest) written g = (Raise e, written, g').
Proof.
  intros Hraise. cbn [write_vertices].
  destruct (Hraise orig g) as [g' E]. rewrite E. eexists. reflexivity.
Qed.

End MeshFacts.


Section MeshValues.

Context {rng : Type}.
Variable random_seed : Z -> rng.
Variable random_gauss : rng -> R * rng.

Lemma write_vertices_map
    (position : R * R * R -> M rng (R * R * R))
    (f : R * R * R -> R * R * R)
    (original_positions : list (R * R * R)) :
  (forall (orig : R * R * R) (g : rng),
      exists g' : rng, position orig g = (Ok (f orig), g')) ->
  forall (written : list (R * R * R)) (g : rng),
  exists g' : rng,
    write_vertices position original_positions written g
    = (Ok tt, written ++ map f original_positions, g').
Proof.
  intros Hf.
  induction original_positions as [| orig rest IH]; intros written g;
    cbn [write_vertices map].
  - exists g. rewrite app_nil_r. reflexivity.
  - destruct (Hf orig g) as [g1 E]. rewrite E.
    destruct (IH (written ++ [f orig]) g1) as [g' E'].
    exists g'. rewrite E', <- app_assoc. reflexivity.
Qed.

End MeshValues.




(** * The guards on [|k|] in ordinary use *)


